(** * tdmcli: the template archive format, its encoder and its decoder

    A shallow embedding of [tdmcli.py]: the repeating-key XOR transform
    [xor_crypt], the record writer of [create_template], the line scanner of
    [apply_template] and the record reader [process_template_file], with the
    properties of the archive format proved about them.

    Conventions of the model.
    - Python [bytes] and [bytearray] values are [list byte].
    - A Python [str] is represented by its UTF-8 byte string, so [.encode()]
      is the identity and [.decode()] checks that the bytes are well-formed
      UTF-8 and is the identity on them.
    - Exceptions are values of [exn]; a computation that may raise returns a
      [result].
    - The destination directory is a finite map from relative path to file
      content.  Directories are implicit ([os.makedirs] always succeeds) and
      every non-empty name can be opened for writing.  This is what the
      program does for paths that are [separate]: distinct, made of proper
      names, none of them a directory of another.  The statements that give
      the content of a destination for paths that are not those of a
      directory tree ask for it, and for an empty destination.
    - The worker pool is run sequentially.  [create_template] receives the
      source files in the order in which their futures complete, and
      [apply_template] runs the decode tasks in the order of submission;
      every submitted task runs, also after another one has raised.  Tasks
      that write distinct files give the same destination in every order.
    - [int] is the arithmetic of Python's conversion; the interpreter's
      configurable limit on the number of digits is not part of it. *)

From Stdlib Require Import NArith ZArith Lia.
From Stdlib Require Import Strings.Byte Strings.String.
From Stdlib Require Import DecimalN.
From stdpp Require Import gmap strings list fin_maps.
Import Init.Byte.

Local Open Scope list_scope.

(** ** Bytes *)

(** The Python literal [b"..."] for printable text. *)
Definition blit (s : string) : list byte := list_byte_of_string s.

Definition nl : byte := x0a.

#[global] Instance byte_eq_dec : EqDecision byte := Byte.byte_eq_dec.

Definition byte_of_N (n : N) : byte := default x00 (Byte.of_N n).

#[global] Instance byte_countable : Countable byte.
Proof.
  refine (inj_countable' Byte.to_N byte_of_N _).
  intros x. unfold byte_of_N. by rewrite Byte.of_to_N.
Defined.

(** [a ^ k] on two values of a byte string; the result is again below 256,
    so [bytearray([...])] accepts it (lemma [byte_xor_to_N]). *)
Definition byte_xor (a k : byte) : byte :=
  byte_of_N (N.lxor (Byte.to_N a) (Byte.to_N k)).

(** ** Exceptions *)

Inductive exn : Set :=
  | ZeroDivisionError
  | IndexError
  | ValueError
  | UnicodeDecodeError
  | FileNotFoundError
  | PermissionError.

Inductive result (A : Type) : Type :=
  | Ok (a : A)
  | Raise (e : exn).
Arguments Ok {A} a.
Arguments Raise {A} e.

#[global] Instance result_ret : MRet result := fun A a => Ok a.
#[global] Instance result_bind : MBind result := fun A B f m =>
  match m with
  | Ok a => f a
  | Raise e => Raise e
  end.

(** ** The cipher *)

Definition KEY : list byte := blit "tdmcliKeyy".

(** The comprehension [[b ^ key_bytes[i % key_len] for i, b in enumerate(data)]],
    started at index [i].  [i % 0] raises [ZeroDivisionError]; for a non-empty
    key the index [i mod key_len] is always in range. *)
Fixpoint xor_enumerate (i : nat) (data key_bytes : list byte) : result (list byte) :=
  match data with
  | [] => Ok []
  | b :: data' =>
      match key_bytes !! (i mod length key_bytes) with
      | Some k => cs ← xor_enumerate (S i) data' key_bytes; Ok (byte_xor b k :: cs)
      | None => Raise ZeroDivisionError
      end
  end.

Definition xor_crypt (data key : list byte) : result (list byte) :=
  xor_enumerate 0 data key.

(** ** Byte-string operations of the decoder *)

(** ASCII whitespace, the set that [bytes.strip()] removes. *)
Definition is_space (c : byte) : bool :=
  match c with
  | x09 | x0a | x0b | x0c | x0d | x20 => true
  | _ => false
  end.

Fixpoint lstrip (bs : list byte) : list byte :=
  match bs with
  | [] => []
  | c :: rest => if is_space c then lstrip rest else bs
  end.

Definition rstrip (bs : list byte) : list byte := rev (lstrip (rev bs)).

(** [bs.strip()] *)
Definition strip (bs : list byte) : list byte := rstrip (lstrip bs).

(** [l.startswith(prefix)] *)
Fixpoint startswith (l prefix : list byte) {struct prefix} : bool :=
  match prefix, l with
  | [], _ => true
  | _ :: _, [] => false
  | p :: prefix', c :: l' => if decide (c = p) then startswith l' prefix' else false
  end.

(** [data[:size]], with Python's reading of a negative bound. *)
Definition slice_to (data : list byte) (size : Z) : list byte :=
  if (0 <=? size)%Z then take (Z.to_nat size) data
  else take (length data - Z.to_nat (- size)) data.

(** [readlines()] of a binary file: the content is cut after every line feed,
    each line keeps its line feed, and a last line without one is kept too. *)
Fixpoint readlines (content : list byte) : list (list byte) :=
  match content with
  | [] => []
  | c :: rest =>
      if decide (c = nl) then [c] :: readlines rest
      else
        match readlines rest with
        | [] => [[c]]
        | l :: lines => (c :: l) :: lines
        end
  end.

(** Well-formed UTF-8, as the strict decoder behind [bytes.decode()] accepts
    it: no overlong forms, no surrogates, nothing above U+10FFFF. *)
Definition in_range (lo hi : N) (c : byte) : bool :=
  ((lo <=? Byte.to_N c) && (Byte.to_N c <=? hi))%N.

Definition is_cont (c : byte) : bool := in_range 128 191 c.

Fixpoint utf8_valid (bs : list byte) : bool :=
  match bs with
  | [] => true
  | c0 :: r0 =>
      if in_range 0 127 c0 then utf8_valid r0
      else
        match r0 with
        | [] => false
        | c1 :: r1 =>
            if in_range 194 223 c0 then is_cont c1 && utf8_valid r1
            else
              match r1 with
              | [] => false
              | c2 :: r2 =>
                  if in_range 224 239 c0 then
                    (if decide (c0 = xe0) then in_range 160 191 c1
                     else if decide (c0 = xed) then in_range 128 159 c1
                     else is_cont c1)
                    && is_cont c2 && utf8_valid r2
                  else
                    match r2 with
                    | [] => false
                    | c3 :: r3 =>
                        in_range 240 244 c0
                        && (if decide (c0 = xf0) then in_range 144 191 c1
                            else if decide (c0 = xf4) then in_range 128 143 c1
                            else is_cont c1)
                        && is_cont c2 && is_cont c3 && utf8_valid r3
                    end
              end
        end
  end.

(** [bs.decode()] *)
Definition decode (bs : list byte) : result (list byte) :=
  if utf8_valid bs then Ok bs else Raise UnicodeDecodeError.

(** *** Decimal integers *)

Definition digit_of (c : byte) : option (Decimal.uint -> Decimal.uint) :=
  match c with
  | x30 => Some Decimal.D0 | x31 => Some Decimal.D1 | x32 => Some Decimal.D2
  | x33 => Some Decimal.D3 | x34 => Some Decimal.D4 | x35 => Some Decimal.D5
  | x36 => Some Decimal.D6 | x37 => Some Decimal.D7 | x38 => Some Decimal.D8
  | x39 => Some Decimal.D9
  | _ => None
  end.

Definition is_digit (c : byte) : bool :=
  match digit_of c with
  | Some _ => true
  | None => false
  end.

(** The digits of an integer literal; a single underscore may separate two
    digits. *)
Fixpoint py_digits (bs : list byte) : option Decimal.uint :=
  match bs with
  | [] => Some Decimal.Nil
  | c :: rest =>
      match digit_of c with
      | Some d => d <$> py_digits rest
      | None =>
          if decide (c = x5f) then
            match rest with
            | c' :: _ => if is_digit c' then py_digits rest else None
            | [] => None
            end
          else None
      end
  end.

(** [int(bs)] for a byte string: surrounding whitespace is dropped, one sign
    is allowed, and at least one digit must follow. *)
Definition py_int (bs : list byte) : result Z :=
  let s := strip bs in
  let '(negative, ds) :=
    match s with
    | x2d :: r => (true, r)
    | x2b :: r => (false, r)
    | _ => (false, s)
    end in
  match ds with
  | c :: _ =>
      if is_digit c then
        match py_digits ds with
        | Some u =>
            let n := Z.of_N (N.of_uint u) in
            Ok (if negative : bool then (- n)%Z else n)
        | None => Raise ValueError
        end
      else Raise ValueError
  | [] => Raise ValueError
  end.

Fixpoint uint_bytes (u : Decimal.uint) : list byte :=
  match u with
  | Decimal.Nil => []
  | Decimal.D0 u' => x30 :: uint_bytes u'
  | Decimal.D1 u' => x31 :: uint_bytes u'
  | Decimal.D2 u' => x32 :: uint_bytes u'
  | Decimal.D3 u' => x33 :: uint_bytes u'
  | Decimal.D4 u' => x34 :: uint_bytes u'
  | Decimal.D5 u' => x35 :: uint_bytes u'
  | Decimal.D6 u' => x36 :: uint_bytes u'
  | Decimal.D7 u' => x37 :: uint_bytes u'
  | Decimal.D8 u' => x38 :: uint_bytes u'
  | Decimal.D9 u' => x39 :: uint_bytes u'
  end.

(** [f"{n}".encode()] for a length [n]: its decimal digits. *)
Definition py_str (n : nat) : list byte := uint_bytes (N.to_uint (N.of_nat n)).

(** ** Archive framing *)

Definition FILE_ : list byte := blit "FILE: ".
Definition SIZE_ : list byte := blit "SIZE: ".
Definition END_OF_FILE : list byte := nl :: blit "END_OF_FILE" ++ [nl].

(** Files of the destination directory, by relative path. *)
Abbreviation files := (gmap (list byte) (list byte)).

(** Archives of the template store, by template name. *)
Abbreviation templates := (gmap string (list byte)).

(** ** The encoder *)

(** A file found by [os.walk]: its path relative to the root and what
    [input_file.read()] yields, its content or an I/O error. *)
Record source_file : Type := SourceFile {
  relative_path : list byte;
  read : result (list byte)
}.

Definition process_file (f : source_file) : result (list byte * list byte) :=
  content ← read f;
  encrypted_content ← xor_crypt content KEY;
  Ok (relative_path f, encrypted_content).

(** The four [template_file.write] calls of one loop iteration, appended to
    what the handle has received so far. *)
Definition write_record (written : list byte) (relative_path encrypted_content : list byte)
  : list byte :=
  let written := written ++ (FILE_ ++ relative_path ++ [nl]) in
  let written := written ++ (SIZE_ ++ py_str (length encrypted_content) ++ [nl]) in
  let written := written ++ encrypted_content in
  written ++ END_OF_FILE.

(** The loop over [as_completed(futures)]: [future.result()] re-raises the
    failure of a worker, which leaves the loop with the records written so
    far. *)
Fixpoint write_records (completed : list source_file) (written : list byte)
  : option exn * list byte :=
  match completed with
  | [] => (None, written)
  | f :: completed' =>
      match process_file f with
      | Ok (relative_path, encrypted_content) =>
          write_records completed' (write_record written relative_path encrypted_content)
      | Raise e => (Some e, written)
      end
  end.

Inductive create_outcome : Set :=
  | Created
  | CreateRaised (e : exn).

(** [create_template(template_name, root_dir)].  [completed] lists the files
    of [root_dir] in the order in which their futures complete; [open_error]
    is the exception that [open(template_path, 'wb')] raises, if any.
    Opening truncates the archive, and leaving the [with] block flushes what
    was written. *)
Definition create_template (template_name : string) (completed : list source_file)
    (open_error : option exn) (store : templates) : create_outcome * templates :=
  match open_error with
  | Some e => (CreateRaised e, store)
  | None =>
      match write_records completed [] with
      | (None, written) => (Created, <[template_name := written]> store)
      | (Some e, written) => (CreateRaised e, <[template_name := written]> store)
      end
  end.

(** ** The decoder *)

(** [lines[i]] *)
Definition index (lines : list (list byte)) (i : nat) : result (list byte) :=
  match lines !! i with
  | Some l => Ok l
  | None => Raise IndexError
  end.

(** [open(file_name, 'wb')] followed by [write], after the directory of
    [file_name] has been made: an empty name cannot be opened.  A name that
    is a directory, or that lies below a file, is not told apart here; the
    paths of such statements are [separate]. *)
Definition write_file (file_name content : list byte) (fs : files) : result files :=
  match file_name with
  | [] => Raise FileNotFoundError
  | _ => Ok (<[file_name := content]> fs)
  end.

Definition process_template_file (lines : list (list byte)) (start_index : nat)
    (fs : files) : result files :=
  l0 ← index lines start_index;
  file_name ← decode (strip (drop 6 l0));
  l1 ← index lines (start_index + 1);
  size ← py_int (strip (drop 6 l1));
  let encrypted_content := concat (drop (start_index + 2) lines) in
  decrypted_content ← xor_crypt (slice_to encrypted_content size) KEY;
  write_file file_name decrypted_content fs.

(** The [while i < len(lines)] loop of [apply_template]; it returns the start
    indices of the submitted tasks.  Every iteration increases [i], so
    [length lines] iterations are enough ([scan_fuel]). *)
Fixpoint scan (fuel : nat) (lines : list (list byte)) (i : nat) : list nat :=
  match fuel with
  | O => []
  | S fuel' =>
      match lines !! i with
      | None => []
      | Some l =>
          if startswith l FILE_ then i :: scan fuel' lines (i + 3)
          else scan fuel' lines (i + 1)
      end
  end.

(** The submitted tasks, run one after the other.  A task that raises
    writes nothing; the others still run, and the first failure is what
    [future.result()] re-raises. *)
Fixpoint run_tasks (lines : list (list byte)) (futures : list nat) (fs : files)
  : option exn * files :=
  match futures with
  | [] => (None, fs)
  | i :: futures' =>
      match process_template_file lines i fs with
      | Ok fs' => run_tasks lines futures' fs'
      | Raise e =>
          let '(_, fs') := run_tasks lines futures' fs in (Some e, fs')
      end
  end.

Inductive apply_outcome : Set :=
  | NotFound
  | Applied
  | ApplyRaised (e : exn).

(** [apply_template(template_name)] in the destination directory [fs]. *)
Definition apply_template (template_name : string) (store : templates) (fs : files)
  : apply_outcome * files :=
  match store !! template_name with
  | None => (NotFound, fs)
  | Some content =>
      let lines := readlines content in
      let futures := scan (length lines) lines 0 in
      match run_tasks lines futures fs with
      | (None, fs') => (Applied, fs')
      | (Some e, fs') => (ApplyRaised e, fs')
      end
  end.

(** ** Notions used in the statements *)

(** [needle in hay] for byte strings. *)
Fixpoint contains (hay needle : list byte) : bool :=
  startswith hay needle ||
  match hay with
  | [] => false
  | _ :: hay' => contains hay' needle
  end.

(** A line feed followed by the [FILE: ] marker. *)
Definition hazard : list byte := nl :: FILE_.

(** What [xor_crypt(content, KEY)] returns; [KEY] is not empty, so it never
    raises (lemma [xor_crypt_ciphertext]). *)
Definition ciphertext (content : list byte) : list byte :=
  match xor_crypt content KEY with
  | Ok encrypted_content => encrypted_content
  | Raise _ => []
  end.

(** A relative path that the decoder recovers unchanged: not empty, on one
    line, without whitespace at either end, and well-formed UTF-8. *)
Definition plain_path (p : list byte) : bool :=
  bool_decide (p ≠ []) && bool_decide (nl ∉ p) && bool_decide (strip p = p)
  && utf8_valid p.

(** The path begins or ends with whitespace. *)
Definition edge_space (p : list byte) : bool :=
  match p with
  | [] => false
  | c :: _ => is_space c
  end
  || match last p with
     | None => false
     | Some c => is_space c
     end.

(** A relative path that the decoder can recover up to stripping: on one
    line, well-formed UTF-8, and not made of whitespace only. *)
Definition recoverable_path (p : list byte) : bool :=
  bool_decide (nl ∉ p) && bool_decide (strip p ≠ []) && utf8_valid p.

(** The file as the decoder names it. *)
Definition stripped (entry : list byte * list byte) : list byte * list byte :=
  (strip entry.1, entry.2).

(** A readable file of the source tree. *)
Definition readable (entry : list byte * list byte) : source_file :=
  SourceFile entry.1 (Ok entry.2).

(** One framed record, as a byte string. *)
Definition record (relative_path encrypted_content : list byte) : list byte :=
  FILE_ ++ relative_path ++ [nl] ++
  SIZE_ ++ py_str (length encrypted_content) ++ [nl] ++
  encrypted_content ++ END_OF_FILE.

(** The archive of a list of files, written in that order. *)
Definition archive (entries : list (list byte * list byte)) : list byte :=
  concat (map (fun entry => record entry.1 (ciphertext entry.2)) entries).

(** ** Paths that can be written side by side *)

(** A separator of [os.path.dirname]: [/], and on Windows also [\]. *)
Definition is_sep (c : byte) : bool :=
  match c with
  | x2f | x5c => true
  | _ => false
  end.

(** The names between the separators of a path. *)
Fixpoint components (p : list byte) : list (list byte) :=
  match p with
  | [] => [[]]
  | c :: p' =>
      if is_sep c then [] :: components p'
      else
        match components p' with
        | [] => [[c]]
        | name :: names => (c :: name) :: names
        end
  end.

(** A name that a file or a directory can be created with: not empty,
    neither [.] nor [..], and without a NUL byte. *)
Definition proper_name (name : list byte) : bool :=
  negb (bool_decide (name = []) || bool_decide (name = blit ".")
        || bool_decide (name = blit "..") || bool_decide (x00 ∈ name)).

(** A relative path in which every name is proper: it is not empty, does
    not begin or end with a separator, and names one place only. *)
Definition regular_path (p : list byte) : bool :=
  forallb proper_name (components p).

(** [d] is a directory on the way to [p]: [p] is [d], a separator and
    more. *)
Definition leads_to (d p : list byte) : bool :=
  startswith p d &&
  match drop (length d) p with
  | c :: _ => is_sep c
  | [] => false
  end.

(** Paths that can all be files of one directory: they are distinct and
    regular, and none is a directory on the way to another.  Written into
    an empty directory, each of them is created, with the directories above
    it, whatever the order of the writes. *)
Definition separate (paths : list (list byte)) : bool :=
  bool_decide (NoDup paths)
  && forallb regular_path paths
  && forallb (fun d => forallb (fun p => negb (leads_to d p)) paths) paths.

(** ** Notions used in the proofs *)

(** The lines that [readlines] makes of one record. *)
Definition record_lines (relative_path encrypted_content : list byte)
  : list (list byte) :=
  (FILE_ ++ relative_path ++ [nl]) ::
  (SIZE_ ++ py_str (length encrypted_content) ++ [nl]) ::
  readlines (encrypted_content ++ [nl]) ++ [blit "END_OF_FILE" ++ [nl]].

Definition archive_lines (entries : list (list byte * list byte))
  : list (list byte) :=
  concat (map (fun entry => record_lines entry.1 (ciphertext entry.2)) entries).

(** The index of the [FILE: ] line of every record, the first one at [i]. *)
Fixpoint record_starts (i : nat) (entries : list (list byte * list byte)) : list nat :=
  match entries with
  | [] => []
  | entry :: entries' =>
      i :: record_starts (i + length (record_lines entry.1 (ciphertext entry.2))) entries'
  end.

(** The scanner on the lines that are left: [i += 3] skips the two lines
    after a [FILE: ] line ([scan_scan_rest]). *)
Fixpoint scan_rest (skip i : nat) (rest : list (list byte)) : list nat :=
  match rest with
  | [] => []
  | l :: rest' =>
      match skip with
      | S skip' => scan_rest skip' (S i) rest'
      | O =>
          if startswith l FILE_ then i :: scan_rest 2 (S i) rest'
          else scan_rest 0 (S i) rest'
      end
  end.

(** The files that the decode tasks write, one after the other. *)
Definition write_all (fs : files) (entries : list (list byte * list byte)) : files :=
  foldl (fun fs entry => <[entry.1 := entry.2]> fs) fs entries.

(** ** Example inputs *)

(** A file content whose ciphertext is
    [x\nFILE: y\nSIZE: 0\n]. *)
Definition marker_content : list byte :=
  [x0c; x6e; x2b; x2a; x20; x2c; x71; x45; x00; x73; x27; x2d; x37; x26; x56;
   x49; x7b; x6f].

Definition marker_tree : list (list byte * list byte) :=
  [(blit "a", marker_content)].

(** A file content whose ciphertext is
    [\nEND_OF_FILE\nSIZE: 9\n]. *)
Definition delimiter_content : list byte :=
  [x7e; x21; x23; x27; x33; x26; x0d; x3a; x3f; x30; x38; x21; x67; x30; x25;
   x33; x0e; x5f; x59; x40; x7e].

Definition delimiter_tree : list (list byte * list byte) :=
  [(blit "a", delimiter_content)].

(** The tree of the scenario of the specification, with a short second
    file. *)
Definition sample_tree : list (list byte * list byte) :=
  [(blit "a.txt", []); (blit "b/c.bin", blit "hello world")].

(** * The rest of the program

    The commands around the archive: the progress total of
    [apply_template], [delete_template], the dispatch of [main],
    [get_templates_dir], [change_templates_dir], and the enumeration of the
    source tree.  [os.path.join] and [os.sep] are parameters of the sections
    that use them. *)

(** ** The progress total of [apply_template] *)

(** [sum(1 for line in lines if line.startswith(b"FILE: "))], the total
    that the progress bar of [apply_template] is created with. *)
Definition total_files (lines : list (list byte)) : nat :=
  length (List.filter (fun line => startswith line FILE_) lines).

(** ** The commands on the template store *)

Inductive delete_outcome : Set :=
  | Deleted
  | DeleteNotFound.

(** [delete_template(template_name)] *)
Definition delete_template (template_name : string) (store : templates)
  : delete_outcome * templates :=
  match store !! template_name with
  | Some _ => (Deleted, delete template_name store)
  | None => (DeleteNotFound, store)
  end.

(** ** The command line *)

(** The function that [main] calls, with its arguments. *)
Inductive action : Set :=
  | ShowHelp
  | ImportTemplate (input_file : string) (template_name : option string)
  | CreateTemplate (template_name : string)
  | ApplyTemplate (template_name : string)
  | DeleteTemplate (template_name : string)
  | ListTemplates
  | ActualVersion
  | CheckForUpdates
  | ExportTemplate (template_name output_dir : string)
  | ChangeTemplatesDir (new_dir : string).

(** [main()], for [sys.argv] and the set of paths that [os.path.isfile]
    accepts. *)
Definition main (argv : list string) (isfile : string -> bool) : action :=
  if length argv <? 2 then ShowHelp
  else
    let command := argv !!! 1 in
    if isfile command then ImportTemplate command None
    else if bool_decide (command = "create") && (length argv =? 3)
    then CreateTemplate (argv !!! 2)
    else if bool_decide (command = "get") && (length argv =? 3)
    then ApplyTemplate (argv !!! 2)
    else if bool_decide (command = "delete") && (length argv =? 3)
    then DeleteTemplate (argv !!! 2)
    else if bool_decide (command = "list") then ListTemplates
    else if bool_decide (command = "-v") then ActualVersion
    else if bool_decide (command = "-u") then CheckForUpdates
    else if bool_decide (command = "export") && (length argv =? 4)
    then ExportTemplate (argv !!! 2) (argv !!! 3)
    else if bool_decide (command = "import") && (3 <=? length argv)
    then ImportTemplate (argv !!! 2)
           (if length argv =? 4 then Some (argv !!! 3) else None)
    else if bool_decide (command = "change-dir") && (length argv =? 3)
    then ChangeTemplatesDir (argv !!! 2)
    else ShowHelp.

(** ** The template directory *)

(** The process environment and the directories that exist.  A directory
    is known by its path as it is written, and holds the template archives
    in it by template name. *)
Record world : Type := World {
  TDMCLI_TEMPLATE_DIR : option string;
  APPDATA : option string;
  directories : gmap string templates
}.

(** What the directory functions raise: the [TypeError] of
    [os.path.join(None, ...)], or an error of the file system. *)
Inductive env_exn : Set :=
  | TypeError
  | OsError (e : exn).

(** [os.path.exists(path)] for a directory; the empty path never exists. *)
Definition exists_dir (w : world) (path : string) : bool :=
  bool_decide (path ≠ "") && bool_decide (is_Some (directories w !! path)).

(** [os.makedirs(path, exist_ok=True)] for a path that does not exist; the
    empty path cannot be created. *)
Definition makedirs (path : string) (w : world) : env_exn + world :=
  if decide (path = "") then inl (OsError FileNotFoundError)
  else inr (World (TDMCLI_TEMPLATE_DIR w) (APPDATA w) (<[path := ∅]> (directories w))).

Inductive transfer_outcome : Set :=
  | Transferred
  | NoTemplates
  | NotTransferred.

(** [shutil.move(os.path.join(old_dir, file_name), os.path.join(new_dir, file_name))]:
    the file leaves [old_dir] and replaces what [new_dir] holds under that
    name.  [change_templates_dir] calls it for a file that [os.listdir] has
    just found and for a directory that exists; otherwise nothing moves. *)
Definition move (old_dir new_dir file_name : string) (dirs : gmap string templates)
  : gmap string templates :=
  match dirs !! old_dir ≫= (fun contents => contents !! file_name), dirs !! new_dir with
  | Some content, Some _ =>
      alter (insert file_name content) new_dir (alter (delete file_name) old_dir dirs)
  | _, _ => dirs
  end.

Section template_directory.

(** [os.path.join(appdata, "tdmcli", "templates")] *)
Variable default_dir : string -> string.

(** [get_templates_dir()].  The default is computed before [os.getenv]
    looks for [TDMCLI_TEMPLATE_DIR], so an unset [APPDATA] raises. *)
Definition get_templates_dir (w : world) : (env_exn + string) * world :=
  match APPDATA w with
  | None => (inl TypeError, w)
  | Some appdata =>
      let templates_dir := default (default_dir appdata) (TDMCLI_TEMPLATE_DIR w) in
      if exists_dir w templates_dir then (inr templates_dir, w)
      else
        match makedirs templates_dir w with
        | inl e => (inl e, w)
        | inr w' => (inr templates_dir, w')
        end
  end.

(** [change_templates_dir(new_dir)]; [transfer_choice] is the answer to
    the question, stripped and in lower case. *)
Definition change_templates_dir (new_dir transfer_choice : string) (w : world)
  : (env_exn + transfer_outcome) * world :=
  match (if exists_dir w new_dir then inr w else makedirs new_dir w) with
  | inl e => (inl e, w)
  | inr w1 =>
      match get_templates_dir w1 with
      | (inl e, w2) => (inl e, w2)
      | (inr old_dir, w2) =>
          let '(outcome, dirs) :=
            if decide (transfer_choice = "y") then
              match directories w2 !! old_dir with
              | Some contents =>
                  if exists_dir w2 old_dir && negb (bool_decide (contents = ∅)) then
                    (Transferred,
                     foldl (fun dirs file_name => move old_dir new_dir file_name dirs)
                       (directories w2) (map_to_list contents).*1)
                  else (NoTemplates, directories w2)
              | None => (NoTemplates, directories w2)
              end
            else (NotTransferred, directories w2) in
          (inr outcome, World (Some new_dir) (APPDATA w2) dirs)
      end
  end.

End template_directory.

(** An environment with [APPDATA] set and one template in the default
    directory. *)
Definition sample_default_dir (appdata : string) : string :=
  appdata +:+ "/tdmcli/templates".

Definition sample_world : world :=
  World None (Some "home")
    {["home/tdmcli/templates" := {["t1" := archive sample_tree]}]}.

(** ** The tree walker *)

(** A directory tree: a file with what reading it yields, or a directory
    with its entries by name. *)
#[local] Unset Elimination Schemes.
Inductive node : Type :=
  | File (contents : result (list byte))
  | Directory (entries : list (list byte * node)).
#[local] Set Elimination Schemes.

Section walker.

(** [os.sep] *)
Variable sep : byte.

(** The files that [os.walk] finds under a directory, top down: the files
    of the directory itself, then those of each of its directories.  Each
    comes with the path that [os.path.relpath] gives it, the names from the
    root on joined by [os.sep]; [prefix] is the path of the directory,
    with its separator.  A root that is a file has nothing to walk. *)
Fixpoint walk (prefix : list byte) (n : node) : list source_file :=
  match n with
  | File _ => []
  | Directory entries =>
      flat_map (fun entry : list byte * node =>
                  match entry.2 with
                  | File contents => [SourceFile (prefix ++ entry.1) contents]
                  | Directory _ => []
                  end) entries
      ++ flat_map (fun entry : list byte * node =>
                     walk (prefix ++ entry.1 ++ [sep]) entry.2) entries
  end.

(** [all_files] of [create_template], as [process_file] sees them. *)
Definition all_files (root : node) : list source_file := walk [] root.

(** In every directory the names are distinct and hold no separator. *)
Fixpoint tree_ok (n : node) : bool :=
  match n with
  | File _ => true
  | Directory entries =>
      bool_decide (NoDup (map fst entries))
      && forallb (fun entry : list byte * node =>
                    bool_decide (sep ∉ entry.1) && tree_ok entry.2) entries
  end.

End walker.

(** The tree of the scenario of the specification. *)
Definition sample_root : node :=
  Directory [(blit "a.txt", File (Ok []));
             (blit "b", Directory [(blit "c.bin", File (Ok (blit "hello world")))])].

(** * Properties *)

(** ** The cipher *)

Section cipher.

Local Open Scope N_scope.

Lemma lxor_byte_bound (a k : N) : a <= 255 -> k <= 255 -> N.lxor a k <= 255.
Proof.
  intros Ha Hk.
  destruct (N.eq_dec (N.lxor a k) 0) as [->|Hne]; [lia|].
  assert (Hlog : forall n, n <= 255 -> N.log2 n < 8).
  { intros n Hn. destruct (N.eq_dec n 0) as [->|Hn0]; [done|].
    apply N.log2_lt_pow2; [lia|]. change (2 ^ 8) with 256. lia. }
  assert (N.lxor a k < 2 ^ 8); [|change (2 ^ 8) with 256 in *; lia].
  apply N.log2_lt_pow2; [lia|].
  pose proof (N.log2_lxor a k). pose proof (Hlog a Ha). pose proof (Hlog k Hk). lia.
Qed.

Lemma byte_xor_to_N (a k : byte) :
  Byte.to_N (byte_xor a k) = N.lxor (Byte.to_N a) (Byte.to_N k).
Proof.
  unfold byte_xor, byte_of_N.
  destruct (Byte.of_N _) as [c|] eqn:E; simpl.
  - by apply Byte.to_of_N.
  - apply Byte.of_N_None_iff in E.
    pose proof (lxor_byte_bound _ _ (Byte.to_N_bounded a) (Byte.to_N_bounded k)). lia.
Qed.

Lemma to_N_inj (a c : byte) : Byte.to_N a = Byte.to_N c -> a = c.
Proof.
  intros H. pose proof (Byte.of_to_N a) as Ha. rewrite H, Byte.of_to_N in Ha. congruence.
Qed.

Lemma byte_xor_involutive (a k : byte) : byte_xor (byte_xor a k) k = a.
Proof.
  apply to_N_inj. rewrite !byte_xor_to_N.
  by rewrite N.lxor_assoc, N.lxor_nilpotent, N.lxor_0_r.
Qed.

End cipher.

Lemma key_lookup_mod (key : list byte) (i : nat) :
  key ≠ [] -> is_Some (key !! (i mod length key)).
Proof.
  intros Hk. apply lookup_lt_is_Some, Nat.mod_upper_bound.
  destruct key; simpl; [done|lia].
Qed.

Lemma xor_enumerate_spec (key : list byte) (Hk : key ≠ []) (data : list byte) :
  forall i, exists out,
    xor_enumerate i data key = Ok out /\
    length out = length data /\
    forall j c, data !! j = Some c ->
      exists kb, key !! ((i + j) mod length key) = Some kb /\
                 out !! j = Some (byte_xor c kb).
Proof.
  induction data as [|c data IH]; intros i; simpl.
  - exists []. by split_and!.
  - destruct (key_lookup_mod key i Hk) as [kb Hkb]. rewrite Hkb.
    destruct (IH (S i)) as (out & -> & Hlen & Hnth). simpl.
    exists (byte_xor c kb :: out). split_and!; [done|simpl; lia|].
    intros [|j] c' Hj; simpl in *.
    + injection Hj as <-. exists kb. by rewrite Nat.add_0_r.
    + destruct (Hnth j c' Hj) as (kb' & Hk' & Ho).
      exists kb'. by replace (i + S j) with (S i + j) by lia.
Qed.

Lemma xor_enumerate_involutive (key data : list byte) :
  forall i out, xor_enumerate i data key = Ok out -> xor_enumerate i out key = Ok data.
Proof.
  induction data as [|c data IH]; intros i out; simpl.
  - by intros [= <-].
  - destruct (key !! _) as [kb|] eqn:Hkb; [|done].
    destruct (xor_enumerate (S i) data key) as [cs|] eqn:Hcs; simpl; [|done].
    intros [= <-]. simpl. rewrite Hkb, (IH _ _ Hcs). simpl.
    by rewrite byte_xor_involutive.
Qed.

(** ** Stripping and decimal sizes *)

Lemma is_digit_not_space (c : byte) : is_digit c = true -> is_space c = false.
Proof. by destruct c. Qed.

Lemma lstrip_app_space (l : list byte) (c : byte) :
  is_space c = true ->
  lstrip (l ++ [c]) = match lstrip l with [] => [] | _ :: _ => lstrip l ++ [c] end.
Proof.
  intros Hc. induction l as [|x l IH]; simpl.
  - by rewrite Hc.
  - by destruct (is_space x).
Qed.

Lemma strip_app_space (l : list byte) (c : byte) :
  is_space c = true -> strip (l ++ [c]) = strip l.
Proof.
  intros Hc. unfold strip, rstrip. rewrite lstrip_app_space by done.
  destruct (lstrip l) as [|x l'] eqn:E; [done|].
  rewrite rev_app_distr. simpl rev at 1. simpl. by rewrite Hc.
Qed.

Lemma lstrip_no_space (l : list byte) :
  Forall (fun c => is_space c = false) l -> lstrip l = l.
Proof. destruct 1 as [|c l Hc _]; simpl; [done|by rewrite Hc]. Qed.

Lemma strip_no_space (l : list byte) :
  Forall (fun c => is_space c = false) l -> strip l = l.
Proof.
  intros Hl. unfold strip, rstrip.
  rewrite (lstrip_no_space l Hl), lstrip_no_space, rev_involutive; [done|].
  by apply Forall_rev.
Qed.

Lemma lstrip_idemp (l : list byte) : lstrip (lstrip l) = lstrip l.
Proof.
  induction l as [|c l IH]; [done|]. simpl.
  destruct (is_space c) eqn:Hc; [done|]. simpl. by rewrite Hc.
Qed.

Lemma lstrip_app_other (l : list byte) (c : byte) :
  is_space c = false -> lstrip (l ++ [c]) = lstrip l ++ [c].
Proof.
  intros Hc. induction l as [|x l IH]; simpl.
  - by rewrite Hc.
  - by destruct (is_space x).
Qed.

Lemma lstrip_head (l : list byte) :
  lstrip l = [] \/ exists c m, lstrip l = c :: m /\ is_space c = false.
Proof.
  induction l as [|c l IH]; simpl; [by left|].
  destruct (is_space c) eqn:Hc; [done|]. right. by exists c, l.
Qed.

Lemma lstrip_rstrip (l : list byte) : lstrip (rstrip (lstrip l)) = rstrip (lstrip l).
Proof.
  destruct (lstrip_head l) as [->|(c & m & -> & Hc)]; [done|].
  unfold rstrip. simpl rev. rewrite lstrip_app_other by done.
  rewrite rev_app_distr. simpl. by rewrite Hc.
Qed.

Lemma rstrip_idemp (l : list byte) : rstrip (rstrip l) = rstrip l.
Proof. unfold rstrip. by rewrite rev_involutive, lstrip_idemp. Qed.

(** Stripping twice is stripping once: what the decoder names a file never
    begins or ends with whitespace. *)
Lemma strip_idemp (l : list byte) : strip (strip l) = strip l.
Proof. unfold strip. by rewrite lstrip_rstrip, rstrip_idemp. Qed.

(** What is left after stripping neither begins nor ends with whitespace. *)
Lemma edge_space_strip (l : list byte) : edge_space (strip l) = false.
Proof.
  unfold strip. destruct (lstrip_head l) as [->|(c & m & -> & Hc)]; [done|].
  unfold rstrip. simpl rev. rewrite lstrip_app_other by done.
  rewrite rev_app_distr. cbn [rev app]. unfold edge_space. rewrite Hc. cbn [orb].
  change (c :: rev (lstrip (rev m))) with ([c] ++ rev (lstrip (rev m))).
  destruct (lstrip_head (rev m)) as [->|(c' & m' & -> & Hc')]; [by cbn; rewrite Hc|].
  cbn [rev]. by rewrite app_assoc, last_snoc.
Qed.

Lemma edge_space_strip_ne (p : list byte) : edge_space p = true -> strip p ≠ p.
Proof. intros Hp Heq. by rewrite <- Heq, edge_space_strip in Hp. Qed.

(** *** Stripping keeps UTF-8 well-formed *)

Lemma ascii_not_cont (c : byte) : in_range 0 127 c = true -> is_cont c = false.
Proof.
  unfold is_cont, in_range. rewrite andb_true_iff, andb_false_iff, !N.leb_le, !N.leb_gt. lia.
Qed.

Lemma is_space_ascii (c : byte) : is_space c = true -> in_range 0 127 c = true.
Proof. by destruct c. Qed.

Lemma utf8_valid_cons (c0 : byte) (r0 : list byte) :
  utf8_valid (c0 :: r0) =
  if in_range 0 127 c0 then utf8_valid r0
  else
    match r0 with
    | [] => false
    | c1 :: r1 =>
        if in_range 194 223 c0 then is_cont c1 && utf8_valid r1
        else
          match r1 with
          | [] => false
          | c2 :: r2 =>
              if in_range 224 239 c0 then
                (if decide (c0 = xe0) then in_range 160 191 c1
                 else if decide (c0 = xed) then in_range 128 159 c1
                 else is_cont c1)
                && is_cont c2 && utf8_valid r2
              else
                match r2 with
                | [] => false
                | c3 :: r3 =>
                    in_range 240 244 c0
                    && (if decide (c0 = xf0) then in_range 144 191 c1
                        else if decide (c0 = xf4) then in_range 128 143 c1
                        else is_cont c1)
                    && is_cont c2 && is_cont c3 && utf8_valid r3
                end
          end
    end.
Proof. done. Qed.

Lemma utf8_valid_app_ascii (c : byte) (Hc : in_range 0 127 c = true) (n : nat) :
  forall l, length l <= n -> utf8_valid (l ++ [c]) = utf8_valid l.
Proof.
  pose proof (ascii_not_cont c Hc) as Hcont.
  assert (Hone : utf8_valid [c] = true) by (by rewrite utf8_valid_cons, Hc).
  induction n as [|n IH]; intros l Hn.
  { destruct l; simpl in Hn; [done|lia]. }
  destruct l as [|c0 r0]; [done|].
  rewrite <- app_comm_cons, (utf8_valid_cons c0 (r0 ++ [c])), (utf8_valid_cons c0 r0).
  cbn [length] in Hn.
  destruct (in_range 0 127 c0); [apply IH; lia|].
  destruct r0 as [|c1 r1]; cbn [app length] in *.
  { rewrite Hcont. by destruct (in_range 194 223 c0). }
  destruct (in_range 194 223 c0); [f_equal; apply IH; lia|].
  destruct r1 as [|c2 r2]; cbn [app length] in *.
  { rewrite Hcont, andb_false_r. by destruct (in_range 224 239 c0). }
  destruct (in_range 224 239 c0); [f_equal; apply IH; lia|].
  destruct r2 as [|c3 r3]; cbn [app length] in *.
  { by rewrite Hcont, andb_false_r. }
  f_equal. apply IH. lia.
Qed.

Lemma utf8_valid_lstrip (l : list byte) :
  utf8_valid l = true -> utf8_valid (lstrip l) = true.
Proof.
  induction l as [|c l IH]; [done|]. intros Hl. cbn [lstrip].
  destruct (is_space c) eqn:Hc; [|done]. apply IH.
  cbn [utf8_valid] in Hl. by rewrite (is_space_ascii c Hc) in Hl.
Qed.

Lemma utf8_valid_rstrip (l : list byte) :
  utf8_valid l = true -> utf8_valid (rstrip l) = true.
Proof.
  induction l as [|c l IH] using rev_ind; [done|]. intros Hl.
  unfold rstrip. rewrite rev_app_distr. cbn [rev app lstrip].
  destruct (is_space c) eqn:Hc.
  - apply IH. by rewrite (utf8_valid_app_ascii c (is_space_ascii c Hc) (length l)) in Hl.
  - change (c :: rev l) with ([c] ++ rev l). by rewrite rev_app_distr, rev_involutive.
Qed.

Lemma utf8_valid_strip (l : list byte) :
  utf8_valid l = true -> utf8_valid (strip l) = true.
Proof. intros Hl. by apply utf8_valid_rstrip, utf8_valid_lstrip. Qed.

Lemma uint_bytes_digits (u : Decimal.uint) :
  Forall (fun c => is_digit c = true) (uint_bytes u).
Proof. induction u; simpl; by constructor. Qed.

Lemma py_digits_uint_bytes (u : Decimal.uint) : py_digits (uint_bytes u) = Some u.
Proof. induction u as [|u IH|u IH|u IH|u IH|u IH|u IH|u IH|u IH|u IH|u IH]; simpl; by rewrite ?IH. Qed.

Lemma to_uint_not_Nil (m : N) : N.to_uint m ≠ Decimal.Nil.
Proof. destruct m; simpl; [done|apply DecimalPos.Unsigned.to_uint_nonnil]. Qed.

Lemma py_str_no_space (n : nat) : Forall (fun c => is_space c = false) (py_str n).
Proof.
  eapply Forall_impl; [apply uint_bytes_digits|]. apply is_digit_not_space.
Qed.

Lemma py_str_no_nl (n : nat) : nl ∉ py_str n.
Proof.
  intros Hin. pose proof (py_str_no_space n) as H.
  rewrite Forall_forall in H. by apply H in Hin.
Qed.

Lemma py_int_uint_bytes (u : Decimal.uint) :
  u ≠ Decimal.Nil ->
  py_int (uint_bytes u) = Ok (Z.of_N (N.of_uint u)).
Proof.
  intros Hnil. unfold py_int.
  rewrite strip_no_space
    by (eapply Forall_impl; [apply uint_bytes_digits|apply is_digit_not_space]).
  destruct u as [|u|u|u|u|u|u|u|u|u|u]; [done|..];
    cbn -[N.of_uint Z.of_N]; by rewrite py_digits_uint_bytes.
Qed.

(** The decoder reads back the size that the encoder printed. *)
Lemma py_int_py_str (n : nat) : py_int (strip (py_str n ++ [nl])) = Ok (Z.of_nat n).
Proof.
  rewrite strip_app_space by done.
  rewrite (strip_no_space _ (py_str_no_space n)).
  unfold py_str. rewrite py_int_uint_bytes by apply to_uint_not_Nil.
  rewrite DecimalN.Unsigned.of_to. f_equal. lia.
Qed.

(** ** Lines *)

Lemma readlines_nl (rest : list byte) : readlines (nl :: rest) = [nl] :: readlines rest.
Proof. done. Qed.

Lemma readlines_not_nil (c : byte) (rest : list byte) : readlines (c :: rest) ≠ [].
Proof.
  simpl. destruct (decide (c = nl)); [done|]. by destruct (readlines rest).
Qed.

Lemma readlines_other (c : byte) (rest : list byte) :
  c ≠ nl ->
  readlines (c :: rest) = (c :: hd [] (readlines rest)) :: tail (readlines rest).
Proof.
  intros Hc. simpl. rewrite decide_False by done. by destruct (readlines rest).
Qed.

Lemma concat_readlines (content : list byte) : concat (readlines content) = content.
Proof.
  induction content as [|c rest IH]; [done|].
  simpl. destruct (decide (c = nl)); simpl; [by rewrite IH|].
  destruct (readlines rest); simpl in *; by rewrite <- IH.
Qed.

(** A line without a line feed, followed by one, is one line. *)
Lemma readlines_line (l rest : list byte) :
  nl ∉ l -> readlines (l ++ nl :: rest) = (l ++ [nl]) :: readlines rest.
Proof.
  induction l as [|c l IH]; intros Hl; [done|].
  apply not_elem_of_cons in Hl as [Hc Hl].
  rewrite <- app_comm_cons, readlines_other by done. by rewrite IH.
Qed.

(** Reading lines commutes with appending after a line feed. *)
Lemma readlines_app_nl (x y : list byte) :
  readlines (x ++ nl :: y) = readlines (x ++ [nl]) ++ readlines y.
Proof.
  induction x as [|c x IH]; [done|].
  rewrite <- !app_comm_cons. destruct (decide (c = nl)) as [->|Hc].
  - by rewrite !readlines_nl, IH.
  - rewrite !readlines_other, IH by done.
    destruct (readlines (x ++ [nl])) as [|l0 ls] eqn:E; [|done].
    destruct x; by apply readlines_not_nil in E.
Qed.

Lemma startswith_app (prefix rest : list byte) : startswith (prefix ++ rest) prefix = true.
Proof. induction prefix as [|p prefix IH]; [done|]. simpl. by rewrite decide_True. Qed.

Lemma startswith_app_other (l prefix : list byte) (c : byte) :
  c ∉ prefix -> startswith (l ++ [c]) prefix = startswith l prefix.
Proof.
  revert prefix. induction l as [|x l IH]; intros [|p prefix] Hc; simpl; try done.
  - apply not_elem_of_cons in Hc as [Hc _]. by rewrite decide_False.
  - apply not_elem_of_cons in Hc as [_ Hc]. destruct (decide (x = p)); [by apply IH|done].
Qed.

(** A prefix without a line feed is seen on the first line. *)
Lemma startswith_first_line (content prefix : list byte) :
  nl ∉ prefix ->
  startswith (hd [] (readlines content)) prefix = startswith content prefix.
Proof.
  revert prefix. induction content as [|c rest IH]; intros [|p prefix] Hp; try done.
  apply not_elem_of_cons in Hp as [Hp1 Hp2].
  destruct (decide (c = nl)) as [->|Hc].
  - rewrite readlines_nl. simpl. by rewrite !decide_False.
  - rewrite readlines_other by done. simpl.
    destruct (decide (c = p)); [by apply IH|done].
Qed.

Lemma nl_not_in_FILE : nl ∉ FILE_.
Proof. apply (bool_decide_unpack _). by vm_compute. Qed.

Lemma nl_not_in_SIZE : nl ∉ SIZE_.
Proof. apply (bool_decide_unpack _). by vm_compute. Qed.

(** The lines after the first one of a ciphertext show the marker exactly
    when the ciphertext contains [hazard]. *)
Lemma spurious_line (e : list byte) :
  existsb (fun l => startswith l FILE_) (tail (readlines (e ++ [nl])))
  = contains e hazard.
Proof.
  unfold hazard. induction e as [|c e IH]; [done|].
  rewrite <- app_comm_cons. cbn [contains startswith].
  destruct (decide (c = nl)) as [->|Hc].
  - rewrite readlines_nl. cbn [tail]. rewrite <- IH.
    rewrite <- (startswith_app_other e FILE_ nl) by apply nl_not_in_FILE.
    rewrite <- (startswith_first_line (e ++ [nl]) FILE_) by apply nl_not_in_FILE.
    destruct (readlines (e ++ [nl])) as [|l0 ls] eqn:E; [|done].
    destruct e; by apply readlines_not_nil in E.
  - rewrite readlines_other by done. cbn [tail]. by rewrite IH.
Qed.

(** The same for a byte string that is not followed by a line feed. *)
Lemma spurious_line_raw (e : list byte) :
  existsb (fun l => startswith l FILE_) (tail (readlines e)) = contains e hazard.
Proof.
  unfold hazard. induction e as [|c e IH]; [done|].
  cbn [contains startswith]. destruct (decide (c = nl)) as [->|Hc].
  - rewrite readlines_nl. cbn [tail]. rewrite <- IH.
    rewrite <- (startswith_first_line e FILE_) by apply nl_not_in_FILE.
    by destruct (readlines e).
  - rewrite readlines_other by done. cbn [tail]. by rewrite IH.
Qed.

(** ** The scanner *)

#[local] Arguments startswith : simpl never.

Lemma scan_rest_skip (skip : nat) :
  forall i rest, scan_rest skip i rest = scan_rest 0 (i + skip) (drop skip rest).
Proof.
  induction skip as [|skip IH]; intros i rest.
  - by rewrite Nat.add_0_r, drop_0.
  - destruct rest as [|l rest]; [done|]. simpl. rewrite IH. f_equal. lia.
Qed.

(** The loop of [apply_template] needs no more than [length lines - i]
    iterations from index [i]. *)
Lemma scan_scan_rest (fuel : nat) :
  forall lines i,
    length lines - i <= fuel -> scan fuel lines i = scan_rest 0 i (drop i lines).
Proof.
  induction fuel as [|fuel IH]; intros lines i Hfuel; simpl.
  - rewrite drop_ge by lia. done.
  - destruct (lines !! i) as [l|] eqn:Hl.
    + pose proof (lookup_lt_Some _ _ _ Hl).
      rewrite (drop_S _ _ _ Hl). simpl. destruct (startswith l FILE_).
      * rewrite IH by lia. rewrite (scan_rest_skip 2), drop_drop.
        by replace (S i + 2) with (i + 3) by lia.
      * rewrite IH by lia. by rewrite Nat.add_1_r.
    + apply lookup_ge_None in Hl. by rewrite drop_ge.
Qed.

Lemma scan_fuel (lines : list (list byte)) :
  scan (length lines) lines 0 = scan_rest 0 0 lines.
Proof. rewrite scan_scan_rest by lia. by rewrite drop_0. Qed.

Lemma existsb_false_Forall {A} (f : A -> bool) (l : list A) :
  existsb f l = false -> Forall (fun x => f x = false) l.
Proof.
  induction l as [|x l IH]; simpl; [by constructor|].
  intros [Hx Hl]%orb_false_elim. constructor; auto.
Qed.

Lemma scan_rest_no_marker (ls rest : list (list byte)) :
  forall i, Forall (fun l => startswith l FILE_ = false) ls ->
    scan_rest 0 i (ls ++ rest) = scan_rest 0 (i + length ls) rest.
Proof.
  induction ls as [|l ls IH]; intros i Hls; simpl.
  - by rewrite Nat.add_0_r.
  - inversion Hls as [|? ? Hl Hls']; subst. rewrite Hl, IH by done. f_equal. lia.
Qed.

(** On a record whose ciphertext is free of [hazard], the scanner submits
    one task, at the [FILE: ] line, and resumes after the record. *)
Lemma scan_rest_record (p e : list byte) (rest : list (list byte)) (i : nat) :
  contains e hazard = false ->
  scan_rest 0 i (record_lines p e ++ rest)
  = i :: scan_rest 0 (i + length (record_lines p e)) rest.
Proof.
  intros He. rewrite <- spurious_line in He. apply existsb_false_Forall in He.
  unfold record_lines. cbn [app scan_rest length]. rewrite startswith_app. f_equal.
  destruct (readlines (e ++ [nl])) as [|l0 ls] eqn:E.
  { destruct e; by apply readlines_not_nil in E. }
  cbn [app scan_rest length tail] in *.
  rewrite <- app_assoc, scan_rest_no_marker by done.
  cbn [app scan_rest length].
  replace (startswith (blit "END_OF_FILE" ++ [nl]) FILE_) with false by done.
  rewrite !length_app. cbn [length]. f_equal. lia.
Qed.

(** ** One record *)

Lemma KEY_not_empty : KEY ≠ [].
Proof. done. Qed.

Lemma xor_crypt_ciphertext (c : list byte) : xor_crypt c KEY = Ok (ciphertext c).
Proof.
  unfold ciphertext, xor_crypt.
  destruct (xor_enumerate_spec KEY KEY_not_empty c 0) as (y & -> & _). done.
Qed.

Lemma xor_crypt_plaintext (c : list byte) : xor_crypt (ciphertext c) KEY = Ok c.
Proof. apply xor_enumerate_involutive, xor_crypt_ciphertext. Qed.

Lemma length_ciphertext (c : list byte) : length (ciphertext c) = length c.
Proof.
  unfold ciphertext, xor_crypt.
  destruct (xor_enumerate_spec KEY KEY_not_empty c 0) as (y & -> & Hlen & _). done.
Qed.

Lemma plain_path_spec (p : list byte) :
  plain_path p = true <-> (p ≠ []) /\ (nl ∉ p) /\ strip p = p /\ utf8_valid p = true.
Proof.
  unfold plain_path. rewrite !andb_true_iff, !bool_decide_eq_true. tauto.
Qed.

(** What a decode task does with the [FILE: ] line, the line after it and
    the rest of the archive. *)
Lemma process_template_file_at (pre : list (list byte)) (l0 l1 : list byte)
    (rest : list (list byte)) (fs : files) :
  process_template_file (pre ++ l0 :: l1 :: rest) (length pre) fs
  = (file_name ← decode (strip (drop 6 l0));
     size ← py_int (strip (drop 6 l1));
     decrypted_content ← xor_crypt (slice_to (concat rest) size) KEY;
     write_file file_name decrypted_content fs).
Proof.
  unfold process_template_file, index.
  rewrite (lookup_app_r pre _ (length pre)), Nat.sub_diag by lia.
  cbn [lookup list_lookup mbind result_bind].
  destruct (decode _) as [file_name|]; [|done].
  rewrite (lookup_app_r pre _ (length pre + 1)) by lia.
  replace (length pre + 1 - length pre) with 1 by lia.
  cbn [lookup list_lookup mbind result_bind].
  destruct (py_int _) as [size|]; [|done].
  rewrite drop_app_ge by lia.
  by replace (length pre + 2 - length pre) with 2 by lia.
Qed.

Lemma slice_to_length (e rest : list byte) :
  slice_to (e ++ rest) (Z.of_nat (length e)) = e.
Proof.
  unfold slice_to. rewrite (proj2 (Z.leb_le _ _)) by lia.
  by rewrite Nat2Z.id, take_app_length.
Qed.

Lemma recoverable_path_spec (p : list byte) :
  recoverable_path p = true <-> (nl ∉ p) /\ (strip p ≠ []) /\ utf8_valid p = true.
Proof.
  unfold recoverable_path. rewrite !andb_true_iff, !bool_decide_eq_true. tauto.
Qed.

Lemma plain_path_recoverable (p : list byte) :
  plain_path p = true -> recoverable_path p = true.
Proof.
  intros (Hne & Hnl & Hstrip & Hutf)%plain_path_spec.
  apply recoverable_path_spec. by rewrite Hstrip.
Qed.

Lemma plain_path_strip (p : list byte) : plain_path p = true -> strip p = p.
Proof. by intros (_ & _ & ? & _)%plain_path_spec. Qed.

(** A decode task at a well-formed record writes the plaintext to the
    stripped path. *)
Lemma process_record (pre rest : list (list byte)) (p c : list byte) (fs : files) :
  recoverable_path p = true ->
  process_template_file (pre ++ record_lines p (ciphertext c) ++ rest) (length pre) fs
  = Ok (<[strip p := c]> fs).
Proof.
  intros (Hnl & Hne & Hutf)%recoverable_path_spec.
  unfold record_lines. cbn [app]. rewrite process_template_file_at.
  replace (drop 6 (FILE_ ++ p ++ [nl])) with (p ++ [nl]) by done.
  rewrite strip_app_space by done.
  unfold decode. rewrite (utf8_valid_strip p Hutf). cbn [mbind result_bind].
  replace (drop 6 (SIZE_ ++ py_str (length (ciphertext c)) ++ [nl]))
    with (py_str (length (ciphertext c)) ++ [nl]) by done.
  rewrite py_int_py_str. cbn [mbind result_bind].
  rewrite !concat_app, concat_readlines, <- !app_assoc, slice_to_length.
  rewrite xor_crypt_plaintext. cbn [mbind result_bind].
  unfold write_file. by destruct (strip p).
Qed.

Lemma readlines_record (p e rest : list byte) :
  nl ∉ p ->
  readlines (record p e ++ rest) = record_lines p e ++ readlines rest.
Proof.
  intros Hp. unfold record, record_lines, END_OF_FILE.
  replace ((FILE_ ++ p ++ [nl] ++ SIZE_ ++ py_str (length e) ++ [nl] ++ e ++
            nl :: blit "END_OF_FILE" ++ [nl]) ++ rest)
    with ((FILE_ ++ p) ++ nl :: (SIZE_ ++ py_str (length e)) ++ nl ::
          e ++ nl :: blit "END_OF_FILE" ++ nl :: rest)
    by (by simplify_list_eq).
  rewrite readlines_line.
  2:{ rewrite not_elem_of_app. split; [apply nl_not_in_FILE|done]. }
  rewrite readlines_line.
  2:{ rewrite not_elem_of_app. split; [apply nl_not_in_SIZE|apply py_str_no_nl]. }
  rewrite readlines_app_nl, (readlines_line (blit "END_OF_FILE"))
    by (apply (bool_decide_unpack _); by vm_compute).
  by simplify_list_eq.
Qed.

(** ** Whole archives *)

Lemma write_record_record (written p e : list byte) :
  write_record written p e = written ++ record p e.
Proof. unfold write_record, record. by rewrite <- !app_assoc. Qed.

Lemma archive_cons (entry : list byte * list byte) (entries : list (list byte * list byte)) :
  archive (entry :: entries) = record entry.1 (ciphertext entry.2) ++ archive entries.
Proof. done. Qed.

Lemma archive_lines_cons (entry : list byte * list byte)
    (entries : list (list byte * list byte)) :
  archive_lines (entry :: entries)
  = record_lines entry.1 (ciphertext entry.2) ++ archive_lines entries.
Proof. done. Qed.

Lemma process_file_readable (entry : list byte * list byte) :
  process_file (readable entry) = Ok (entry.1, ciphertext entry.2).
Proof.
  unfold process_file, readable. cbn [read relative_path mbind result_bind].
  by rewrite xor_crypt_ciphertext.
Qed.

(** When every file can be read, the loop writes one record per file. *)
Lemma write_records_readable (entries : list (list byte * list byte)) :
  forall written,
    write_records (map readable entries) written = (None, written ++ archive entries).
Proof.
  induction entries as [|entry entries IH]; intros written.
  - by rewrite app_nil_r.
  - cbn [map write_records]. rewrite process_file_readable.
    by rewrite write_record_record, IH, archive_cons, <- app_assoc.
Qed.

Lemma readlines_archive (entries : list (list byte * list byte)) :
  Forall (fun entry => nl ∉ entry.1) entries ->
  readlines (archive entries) = archive_lines entries.
Proof.
  induction 1 as [|entry entries Hp _ IH]; [done|].
  by rewrite archive_cons, archive_lines_cons, readlines_record, IH.
Qed.

Lemma scan_rest_archive (entries : list (list byte * list byte)) :
  forall i rest,
    Forall (fun entry => contains (ciphertext entry.2) hazard = false) entries ->
    scan_rest 0 i (archive_lines entries ++ rest)
    = record_starts i entries ++ scan_rest 0 (i + length (archive_lines entries)) rest.
Proof.
  induction entries as [|entry entries IH]; intros i rest Hall.
  - cbn [archive_lines map concat app record_starts length]. by rewrite Nat.add_0_r.
  - inversion Hall as [|? ? He Hall']; subst.
    rewrite archive_lines_cons, <- app_assoc, scan_rest_record by done.
    rewrite IH by done. cbn [record_starts app]. rewrite length_app.
    by rewrite Nat.add_assoc.
Qed.

Lemma run_tasks_archive (entries : list (list byte * list byte)) :
  forall pre fs,
    Forall (fun entry => recoverable_path entry.1 = true) entries ->
    run_tasks (pre ++ archive_lines entries) (record_starts (length pre) entries) fs
    = (None, write_all fs (map stripped entries)).
Proof.
  induction entries as [|entry entries IH]; intros pre fs Hall; [done|].
  inversion Hall as [|? ? Hp Hall']; subst.
  cbn [record_starts run_tasks]. rewrite archive_lines_cons.
  rewrite process_record by done.
  rewrite app_assoc, <- length_app. by rewrite IH.
Qed.

Lemma recoverable_one_line (entries : list (list byte * list byte)) :
  Forall (fun entry => recoverable_path entry.1 = true) entries ->
  Forall (fun entry => nl ∉ entry.1) entries.
Proof.
  intros H. eapply Forall_impl; [exact H|]. by intros e (? & _)%recoverable_path_spec.
Qed.

Lemma scan_archive (entries : list (list byte * list byte)) :
  Forall (fun entry => nl ∉ entry.1) entries ->
  Forall (fun entry => contains (ciphertext entry.2) hazard = false) entries ->
  scan (length (readlines (archive entries))) (readlines (archive entries)) 0
  = record_starts 0 entries.
Proof.
  intros Hnl Hfree. rewrite scan_fuel, readlines_archive by done.
  pose proof (scan_rest_archive entries 0 [] Hfree) as Hscan.
  cbn [scan_rest] in Hscan. by rewrite !app_nil_r in Hscan.
Qed.

(** Applying the archive of recoverable paths and hazard-free ciphertexts
    writes every file to its stripped path, in the order of the archive. *)
Lemma apply_template_archive (template_name : string) (store : templates)
    (entries : list (list byte * list byte)) (fs : files) :
  store !! template_name = Some (archive entries) ->
  Forall (fun entry => recoverable_path entry.1 = true) entries ->
  Forall (fun entry => contains (ciphertext entry.2) hazard = false) entries ->
  apply_template template_name store fs = (Applied, write_all fs (map stripped entries)).
Proof.
  intros Hstore Hrec Hfree. unfold apply_template. rewrite Hstore.
  cbv zeta. rewrite scan_archive by (by try apply recoverable_one_line).
  rewrite readlines_archive by (by apply recoverable_one_line).
  pose proof (run_tasks_archive entries [] fs Hrec) as Hrun.
  cbn [app length] in Hrun. by rewrite Hrun.
Qed.

Lemma map_stripped_plain (entries : list (list byte * list byte)) :
  Forall (fun entry => plain_path entry.1 = true) entries ->
  map stripped entries = entries.
Proof.
  induction 1 as [|[p c] entries Hp _ IH]; [done|].
  cbn [map]. unfold stripped at 1. cbn [fst snd] in *.
  by rewrite (plain_path_strip p Hp), IH.
Qed.

Lemma plain_recoverable (entries : list (list byte * list byte)) :
  Forall (fun entry => plain_path entry.1 = true) entries ->
  Forall (fun entry => recoverable_path entry.1 = true) entries.
Proof. intros H. eapply Forall_impl; [exact H|]. intros e. apply plain_path_recoverable. Qed.

Lemma create_template_readable (template_name : string)
    (entries : list (list byte * list byte)) (store : templates) :
  create_template template_name (map readable entries) None store
  = (Created, <[template_name := archive entries]> store).
Proof. unfold create_template. by rewrite write_records_readable. Qed.

Lemma write_all_list_to_map (entries : list (list byte * list byte)) :
  forall fs : files, write_all fs entries = list_to_map (rev entries) ∪ fs.
Proof.
  unfold write_all. induction entries as [|[p c] entries IH]; intros fs.
  - cbn. by rewrite (left_id_L ∅ (∪)).
  - cbn [foldl rev]. rewrite IH, list_to_map_app. cbn [list_to_map foldr fst snd uncurry].
    by rewrite <- (assoc_L (∪)), insert_union_singleton_l, insert_empty.
Qed.

Lemma write_all_empty (T entries : list (list byte * list byte)) :
  NoDup T.*1 -> entries ≡ₚ T -> write_all ∅ entries = list_to_map T.
Proof.
  intros Hnodup Hperm. rewrite write_all_list_to_map, (right_id_L ∅ (∪)).
  symmetry. apply list_to_map_proper; [done|].
  rewrite <- Hperm. apply Permutation_rev.
Qed.

(** ** Archives followed by further bytes *)

Lemma readlines_archive_app (entries : list (list byte * list byte)) (rest : list byte) :
  Forall (fun entry => nl ∉ entry.1) entries ->
  readlines (archive entries ++ rest) = archive_lines entries ++ readlines rest.
Proof.
  induction 1 as [|entry entries Hp _ IH]; [done|].
  by rewrite archive_cons, archive_lines_cons, <- !app_assoc, readlines_record, IH.
Qed.

Lemma process_template_file_shift (pre lines : list (list byte)) (i : nat) (fs : files) :
  process_template_file (pre ++ lines) (length pre + i) fs
  = process_template_file lines i fs.
Proof.
  unfold process_template_file, index.
  rewrite (lookup_app_r pre lines (length pre + i)) by lia.
  rewrite (lookup_app_r pre lines (length pre + i + 1)) by lia.
  rewrite drop_app_ge by lia.
  replace (length pre + i - length pre) with i by lia.
  replace (length pre + i + 1 - length pre) with (i + 1) by lia.
  by replace (length pre + i + 2 - length pre) with (i + 2) by lia.
Qed.

Lemma run_tasks_shift (pre lines : list (list byte)) (futures : list nat) :
  forall fs,
    run_tasks (pre ++ lines) (map (fun i => length pre + i) futures) fs
    = run_tasks lines futures fs.
Proof.
  induction futures as [|i futures IH]; intros fs; [done|].
  cbn [map run_tasks]. rewrite process_template_file_shift.
  destruct (process_template_file lines i fs); by rewrite IH.
Qed.

Lemma scan_rest_shift (n : nat) (rest : list (list byte)) :
  forall skip i,
    scan_rest skip (n + i) rest = map (fun j => n + j) (scan_rest skip i rest).
Proof.
  induction rest as [|l rest IH]; intros skip i; [done|].
  cbn [scan_rest]. destruct skip as [|skip].
  - destruct (startswith l FILE_); cbn [map];
      by rewrite <- IH, Nat.add_succ_r.
  - by rewrite <- IH, Nat.add_succ_r.
Qed.

Lemma run_tasks_archive_app (entries : list (list byte * list byte))
    (rest : list (list byte)) (more : list nat) :
  forall pre fs,
    Forall (fun entry => recoverable_path entry.1 = true) entries ->
    run_tasks (pre ++ archive_lines entries ++ rest)
      (record_starts (length pre) entries ++ more) fs
    = run_tasks (pre ++ archive_lines entries ++ rest) more
        (write_all fs (map stripped entries)).
Proof.
  induction entries as [|entry entries IH]; intros pre fs Hall; [done|].
  inversion Hall as [|? ? Hp Hall']; subst.
  cbn [record_starts app run_tasks]. rewrite archive_lines_cons, <- app_assoc.
  rewrite process_record by done.
  replace (pre ++ record_lines entry.1 (ciphertext entry.2) ++ archive_lines entries ++ rest)
    with ((pre ++ record_lines entry.1 (ciphertext entry.2)) ++ archive_lines entries ++ rest)
    by (by rewrite <- app_assoc).
  rewrite <- length_app. by rewrite IH.
Qed.

(** The lines and the tasks of a well-formed archive followed by any
    bytes. *)
Lemma apply_template_archive_app (template_name : string) (store : templates)
    (entries : list (list byte * list byte)) (rest : list byte) (fs : files) :
  Forall (fun entry => recoverable_path entry.1 = true) entries ->
  Forall (fun entry => contains (ciphertext entry.2) hazard = false) entries ->
  apply_template template_name (<[template_name := archive entries ++ rest]> store) fs
  = apply_template template_name (<[template_name := rest]> store)
      (write_all fs (map stripped entries)).
Proof.
  intros Hrec Hfree. unfold apply_template. rewrite !lookup_insert_eq. cbv zeta.
  rewrite readlines_archive_app by (by apply recoverable_one_line).
  rewrite !scan_fuel, scan_rest_archive by done.
  replace (0 + length (archive_lines entries)) with (length (archive_lines entries) + 0) by lia.
  rewrite (scan_rest_shift (length (archive_lines entries)) (readlines rest) 0 0).
  pose proof (run_tasks_archive_app entries (readlines rest)
    (map (fun j => length (archive_lines entries) + j) (scan_rest 0 0 (readlines rest)))
    [] fs Hrec) as Hrun.
  cbn [app length] in Hrun. rewrite Hrun.
  by rewrite (run_tasks_shift (archive_lines entries) (readlines rest)).
Qed.

Lemma apply_template_lookup (name1 name2 : string) (store1 store2 : templates)
    (fs : files) :
  store1 !! name1 = store2 !! name2 ->
  apply_template name1 store1 fs = apply_template name2 store2 fs.
Proof. intros H. unfold apply_template. by rewrite H. Qed.

(** ** Separate paths *)

Lemma separate_NoDup (paths : list (list byte)) : separate paths = true -> NoDup paths.
Proof.
  unfold separate. intros [[H _]%andb_true_iff _]%andb_true_iff.
  by apply bool_decide_eq_true in H.
Qed.

Lemma stripped_paths (entries : list (list byte * list byte)) :
  (map stripped entries).*1 = strip <$> entries.*1.
Proof. induction entries as [|e entries IH]; [done|]. cbn. by rewrite <- IH. Qed.

(** Files written at distinct paths: the destination does not depend on the
    order of the writes. *)
Lemma write_all_separate (T entries : list (list byte * list byte)) :
  separate T.*1 = true -> entries ≡ₚ T -> write_all ∅ entries = list_to_map T.
Proof. intros Hsep%separate_NoDup. by apply write_all_empty. Qed.

(** * The claims *)

Lemma forallb_true_Forall {A} (f : A -> bool) (l : list A) :
  forallb f l = true -> Forall (fun x => f x = true) l.
Proof. intros H. apply Forall_forall. intros x Hx. by apply (proj1 (forallb_forall f l) H), list_elem_of_In. Qed.

(** Applying the archive of a tree of plain paths and hazard-free
    ciphertexts, written in any order. *)
Lemma apply_plain_archive (T completed : list (list byte * list byte))
    (template_name : string) (store : templates) :
  NoDup T.*1 ->
  Forall (fun entry => plain_path entry.1 = true) T ->
  Forall (fun entry => contains (ciphertext entry.2) hazard = false) T ->
  completed ≡ₚ T ->
  apply_template template_name (<[template_name := archive completed]> store) ∅
  = (Applied, list_to_map T).
Proof.
  intros Hnodup Hplain Hfree Hperm.
  rewrite <- Hperm in Hplain, Hfree.
  rewrite (apply_template_archive _ _ completed) by
    (by try apply lookup_insert_eq; try apply plain_recoverable).
  by rewrite map_stripped_plain, (write_all_empty T).
Qed.

Lemma process_template_file_lines (lines : list (list byte)) (i : nat)
    (l0 l1 : list byte) (fs : files) :
  lines !! i = Some l0 ->
  lines !! (i + 1) = Some l1 ->
  process_template_file lines i fs
  = (file_name ← decode (strip (drop 6 l0));
     size ← py_int (strip (drop 6 l1));
     decrypted_content ← xor_crypt (slice_to (concat (drop (i + 2) lines)) size) KEY;
     write_file file_name decrypted_content fs).
Proof.
  intros H0 H1. unfold process_template_file, index. rewrite H0.
  cbn [mbind result_bind]. destruct (decode _); [|done].
  cbn [mbind result_bind]. by rewrite H1.
Qed.

Lemma write_file_named (file_name content : list byte) (fs : files) :
  file_name ≠ [] -> write_file file_name content fs = Ok (<[file_name := content]> fs).
Proof. by destruct file_name. Qed.

(** ** C1 *)

(** C1 (as amended): for every tree whose relative paths are plain (not
    empty, on one line, no whitespace at either end, well-formed UTF-8) and
    whose ciphertexts do not contain a line feed followed by [FILE: ],
    creating the archive, in whatever order the workers complete, and
    applying it in an empty directory gives back the tree: the same paths
    with the same contents. *)
Theorem create_apply_roundtrip (T completed : list (list byte * list byte))
    (template_name : string) (store : templates) :
  NoDup T.*1 ->
  Forall (fun entry => plain_path entry.1 = true) T ->
  Forall (fun entry => contains (ciphertext entry.2) hazard = false) T ->
  completed ≡ₚ T ->
  exists store',
    create_template template_name (map readable completed) None store = (Created, store') /\
    apply_template template_name store' ∅ = (Applied, list_to_map T).
Proof.
  intros Hnodup Hplain Hfree Hperm.
  eexists. split; [apply create_template_readable|].
  by apply apply_plain_archive.
Qed.

Lemma create_apply_roundtrip_witness :
  exists store',
    create_template "t1" (map readable (rev sample_tree)) None ∅ = (Created, store') /\
    apply_template "t1" store' ∅ = (Applied, list_to_map sample_tree).
Proof.
  apply (create_apply_roundtrip sample_tree (rev sample_tree) "t1" ∅).
  - apply (bool_decide_unpack _). by vm_compute.
  - apply forallb_true_Forall. by vm_compute.
  - apply existsb_false_Forall. by vm_compute.
  - symmetry. apply Permutation_rev.
Defined.

(** C1 (counterexample): a tree of one file [a] whose ciphertext is
    [x\nFILE: y\nSIZE: 0\n].  The archive is created and applied without an
    error, and the destination holds a second, empty file [y]. *)
Lemma create_apply_roundtrip_counterexample :
  NoDup marker_tree.*1 /\
  ciphertext marker_content
    = blit "x" ++ [nl] ++ blit "FILE: y" ++ [nl] ++ blit "SIZE: 0" ++ [nl] /\
  exists store',
    create_template "t" (map readable marker_tree) None ∅ = (Created, store') /\
    apply_template "t" store' ∅ = (Applied, <[blit "y" := []]> (list_to_map marker_tree)) /\
    (<[blit "y" := []]> (list_to_map marker_tree) : files) ≠ list_to_map marker_tree.
Proof.
  split; [apply (bool_decide_unpack _); by vm_compute|].
  split; [by vm_compute|].
  eexists. split; [apply create_template_readable|].
  split; [by vm_compute|].
  intros H. apply (f_equal (fun m : files => m !! blit "y")) in H.
  by vm_compute in H.
Qed.

(** ** C2 *)

Lemma readlines_head (p : list byte) (n : nat) (rest : list byte) :
  nl ∉ p ->
  readlines (FILE_ ++ p ++ [nl] ++ SIZE_ ++ py_str n ++ [nl] ++ rest)
  = (FILE_ ++ p ++ [nl]) :: (SIZE_ ++ py_str n ++ [nl]) :: readlines rest.
Proof.
  intros Hp.
  replace (FILE_ ++ p ++ [nl] ++ SIZE_ ++ py_str n ++ [nl] ++ rest)
    with ((FILE_ ++ p) ++ nl :: (SIZE_ ++ py_str n) ++ nl :: rest)
    by (by simplify_list_eq).
  rewrite readlines_line.
  2:{ rewrite not_elem_of_app. split; [apply nl_not_in_FILE|done]. }
  rewrite readlines_line.
  2:{ rewrite not_elem_of_app. split; [apply nl_not_in_SIZE|apply py_str_no_nl]. }
  by simplify_list_eq.
Qed.

(** An archive that is one record whose SIZE is larger than what follows
    the [SIZE: ] line. *)
Lemma apply_oversized_record (template_name : string) (store : templates)
    (p : list byte) (n : nat) (rest : list byte) (fs : files) :
  plain_path p = true ->
  length rest < n ->
  contains rest hazard = false ->
  store !! template_name = Some (FILE_ ++ p ++ [nl] ++ SIZE_ ++ py_str n ++ [nl] ++ rest) ->
  apply_template template_name store fs = (Applied, <[p := ciphertext rest]> fs).
Proof.
  intros (Hne & Hnl & Hstrip & Hutf)%plain_path_spec Hlen Hfree Hstore.
  unfold apply_template. rewrite Hstore. cbv zeta.
  rewrite readlines_head, scan_fuel by done.
  rewrite <- spurious_line_raw in Hfree. apply existsb_false_Forall in Hfree.
  assert (Hscan : scan_rest 0 0
            ((FILE_ ++ p ++ [nl]) :: (SIZE_ ++ py_str n ++ [nl]) :: readlines rest) = [0]).
  { cbn [scan_rest]. rewrite startswith_app. f_equal.
    destruct (readlines rest) as [|l0 ls]; [done|]. cbn [scan_rest tail] in *.
    rewrite <- (app_nil_r ls), scan_rest_no_marker by done. done. }
  rewrite Hscan. cbn [run_tasks].
  rewrite (process_template_file_lines
             ((FILE_ ++ p ++ [nl]) :: (SIZE_ ++ py_str n ++ [nl]) :: readlines rest)
             0 (FILE_ ++ p ++ [nl]) (SIZE_ ++ py_str n ++ [nl]) fs eq_refl eq_refl).
  cbn [Nat.add skipn].
  replace (drop 6 (FILE_ ++ p ++ [nl])) with (p ++ [nl]) by done.
  rewrite strip_app_space, Hstrip by done.
  unfold decode. rewrite Hutf. cbn [mbind result_bind].
  replace (drop 6 (SIZE_ ++ py_str n ++ [nl])) with (py_str n ++ [nl]) by done.
  rewrite py_int_py_str. cbn [mbind result_bind].
  rewrite drop_0, concat_readlines. unfold slice_to.
  rewrite (proj2 (Z.leb_le _ _)) by lia. rewrite Nat2Z.id, take_ge by lia.
  rewrite xor_crypt_ciphertext. cbn [mbind result_bind].
  by rewrite write_file_named.
Qed.

(** C2 (as amended): a record whose declared SIZE exceeds the bytes that
    remain in the archive is not rejected.  Take an archive that ends in
    such a record: any number of well-formed records, then [FILE: <path>\n],
    [SIZE: <n>\n] and fewer than [n] bytes.  The paths are plain and
    separate (distinct, made of proper names, none a directory of another),
    and neither a ciphertext nor the remaining bytes hold a line feed
    followed by [FILE: ].  Applied in an empty directory, the archive is
    accepted: [apply_template] succeeds, writes the files of the records
    before, and writes the last file with the decryption of the bytes that
    remain, fewer than SIZE. *)
Theorem oversized_record_truncated (template_name : string) (store : templates)
    (entries : list (list byte * list byte)) (p : list byte) (n : nat)
    (rest : list byte) :
  Forall (fun entry => plain_path entry.1 = true) entries ->
  Forall (fun entry => contains (ciphertext entry.2) hazard = false) entries ->
  plain_path p = true ->
  separate (entries.*1 ++ [p]) = true ->
  length rest < n ->
  contains rest hazard = false ->
  store !! template_name
  = Some (archive entries
          ++ blit "FILE: " ++ p ++ [nl] ++ blit "SIZE: " ++ py_str n ++ [nl] ++ rest) ->
  exists written,
    xor_crypt rest KEY = Ok written /\
    length written = length rest /\
    length written < n /\
    apply_template template_name store ∅
    = (Applied, <[p := written]> (list_to_map entries)).
Proof.
  intros Hplain Hfree Hp Hsep Hlen Hrest Hstore.
  apply separate_NoDup, NoDup_app in Hsep as (Hnodup & _ & _).
  exists (ciphertext rest).
  split_and!; [apply xor_crypt_ciphertext|apply length_ciphertext
              |by rewrite length_ciphertext|].
  rewrite (apply_template_lookup template_name template_name store
             (<[template_name := archive entries
                  ++ (FILE_ ++ p ++ [nl] ++ SIZE_ ++ py_str n ++ [nl] ++ rest)]> store) ∅)
    by (by rewrite lookup_insert_eq).
  rewrite apply_template_archive_app by (by try apply plain_recoverable).
  rewrite map_stripped_plain, (write_all_empty entries entries) by done.
  apply (apply_oversized_record _ _ p n rest); try done. by rewrite lookup_insert_eq.
Qed.

Lemma oversized_record_truncated_witness :
  exists written,
    xor_crypt (blit "xy") KEY = Ok written /\
    length written = length (blit "xy") /\
    length written < 5 /\
    apply_template "t"
      {["t" := archive sample_tree
               ++ blit "FILE: " ++ blit "d" ++ [nl] ++ blit "SIZE: " ++ py_str 5 ++ [nl]
               ++ blit "xy"]}
      ∅
    = (Applied, <[blit "d" := written]> (list_to_map sample_tree)).
Proof.
  apply (oversized_record_truncated "t" _ sample_tree (blit "d") 5 (blit "xy")).
  - apply forallb_true_Forall. reflexivity.
  - apply existsb_false_Forall. reflexivity.
  - reflexivity.
  - vm_compute. reflexivity.
  - simpl. lia.
  - reflexivity.
  - reflexivity.
Defined.

(** C2 (counterexample): the archive [FILE: a\nSIZE: 5\nxy] declares five
    bytes and holds two.  It is applied without an error, and [a] receives
    the two bytes, decrypted. *)
Lemma oversized_record_counterexample :
  py_int (blit "5") = Ok 5%Z /\
  length (blit "xy") = 2 /\
  apply_template "t"
    {["t" := blit "FILE: a" ++ [nl] ++ blit "SIZE: 5" ++ [nl] ++ blit "xy"]} ∅
  = (Applied, {[blit "a" := [x0c; x1d]]}) /\
  xor_crypt (blit "xy") KEY = Ok [x0c; x1d].
Proof. split_and!; by vm_compute. Qed.

(** ** C3 *)

(** An empty key fails on the first byte: [i % 0]. *)
Example xor_crypt_empty_key : xor_crypt (blit "a") [] = Raise ZeroDivisionError.
Proof. reflexivity. Qed.

(** C3: for a non-empty key, [xor_crypt] never raises, keeps the length,
    computes [output[i] = input[i] XOR key[i mod len(key)]], and applying it
    twice with the same key gives the input back. *)
Theorem xor_crypt_involution (x k : list byte) :
  k ≠ [] ->
  exists y,
    xor_crypt x k = Ok y /\
    xor_crypt y k = Ok x /\
    length y = length x /\
    forall i c, x !! i = Some c ->
      exists kb, k !! (i mod length k) = Some kb /\
                 y !! i = Some (byte_xor c kb) /\
                 Byte.to_N (byte_xor c kb) = N.lxor (Byte.to_N c) (Byte.to_N kb).
Proof.
  intros Hk. unfold xor_crypt.
  destruct (xor_enumerate_spec k Hk x 0) as (y & Hy & Hlen & Hnth).
  exists y. split_and!; [done|by apply xor_enumerate_involutive|done|].
  intros i c Hi. destruct (Hnth i c Hi) as (kb & Hkb & Ho).
  exists kb. split_and!; [done|done|apply byte_xor_to_N].
Qed.

Lemma xor_crypt_involution_witness :
  KEY ≠ [] /\
  exists y,
    xor_crypt (blit "abc") KEY = Ok y /\
    xor_crypt y KEY = Ok (blit "abc") /\
    length y = length (blit "abc") /\
    forall i c, blit "abc" !! i = Some c ->
      exists kb, KEY !! (i mod length KEY) = Some kb /\
                 y !! i = Some (byte_xor c kb) /\
                 Byte.to_N (byte_xor c kb) = N.lxor (Byte.to_N c) (Byte.to_N kb).
Proof.
  split; [discriminate|].
  apply (xor_crypt_involution (blit "abc") KEY). discriminate.
Defined.

(** ** C4 *)

Lemma scan_rest_ge (rest : list (list byte)) :
  forall skip i j, j ∈ scan_rest skip i rest -> i <= j.
Proof.
  induction rest as [|l rest IH]; intros skip i j; cbn [scan_rest].
  - by intros ?%elem_of_nil.
  - destruct skip as [|skip].
    + destruct (startswith l FILE_).
      * intros [->|Hj%IH]%elem_of_cons; lia.
      * intros Hj%IH. lia.
    + intros Hj%IH. lia.
Qed.

Lemma length_record_lines (p e : list byte) : 3 < length (record_lines p e).
Proof.
  unfold record_lines. cbn [length]. rewrite length_app. cbn [length].
  destruct (readlines (e ++ [nl])) as [|l0 ls] eqn:E; [|simpl; lia].
  destruct e; by apply readlines_not_nil in E.
Qed.

Lemma record_starts_bounds (entries : list (list byte * list byte)) :
  forall i j, j ∈ record_starts i entries -> i <= j.
Proof.
  induction entries as [|entry entries IH]; intros i j; cbn [record_starts].
  - by intros ?%elem_of_nil.
  - intros [->|Hj%IH]%elem_of_cons; lia.
Qed.

(** The scanner stops at the first line that shows the marker. *)
Lemma scan_rest_first_marker (ls rest : list (list byte)) :
  forall i, Exists (fun l => startswith l FILE_ = true) ls ->
    exists k, k < length ls /\ i + k ∈ scan_rest 0 i (ls ++ rest).
Proof.
  induction ls as [|l ls IH]; intros i Hex; [by apply Exists_nil in Hex|].
  cbn [app scan_rest length]. destruct (startswith l FILE_) eqn:Hl.
  - exists 0. split; [lia|]. rewrite Nat.add_0_r. apply elem_of_cons. by left.
  - apply Exists_cons in Hex as [Hex|Hex]; [congruence|].
    destruct (IH (S i) Hex) as (k & Hk & Hin).
    exists (S k). split; [lia|]. by replace (i + S k) with (S i + k) by lia.
Qed.

Lemma existsb_true_Exists {A} (f : A -> bool) (l : list A) :
  existsb f l = true -> Exists (fun x => f x = true) l.
Proof.
  intros (x & Hx & Hf)%existsb_exists. apply Exists_exists.
  exists x. by split; [apply list_elem_of_In|].
Qed.

(** On a record whose ciphertext contains [hazard], the scanner submits a
    task at a line inside the record. *)
Lemma scan_rest_record_hazard (p e : list byte) (rest : list (list byte)) (i : nat) :
  contains e hazard = true ->
  exists j, i < j < i + length (record_lines p e) /\
            j ∈ scan_rest 0 i (record_lines p e ++ rest).
Proof.
  intros He. rewrite <- spurious_line in He. apply existsb_true_Exists in He.
  unfold record_lines. cbn [app scan_rest length]. rewrite startswith_app.
  destruct (readlines (e ++ [nl])) as [|l0 ls] eqn:E.
  { destruct e; by apply readlines_not_nil in E. }
  cbn [app scan_rest length tail] in *. rewrite <- app_assoc.
  destruct (scan_rest_first_marker ls ([blit "END_OF_FILE" ++ [nl]] ++ rest)
              (S (S (S i))) He) as (k & Hk & Hin).
  exists (S (S (S i)) + k). rewrite length_app. cbn [length].
  split; [lia|]. apply elem_of_cons. by right.
Qed.

Lemma scan_rest_archive_hazard (entries : list (list byte * list byte)) :
  forall i rest,
    Exists (fun entry => contains (ciphertext entry.2) hazard = true) entries ->
    exists j, j ∈ scan_rest 0 i (archive_lines entries ++ rest) /\
              j ∉ record_starts i entries.
Proof.
  induction entries as [|entry entries IH]; intros i rest Hex;
    [by apply Exists_nil in Hex|].
  rewrite archive_lines_cons, <- app_assoc. cbn [record_starts].
  destruct (contains (ciphertext entry.2) hazard) eqn:He.
  - destruct (scan_rest_record_hazard entry.1 (ciphertext entry.2)
                (archive_lines entries ++ rest) i He) as (j & Hj & Hin).
    exists j. split; [done|].
    intros [->|Hs%record_starts_bounds]%elem_of_cons; lia.
  - apply Exists_cons in Hex as [Hex|Hex]; [congruence|].
    rewrite scan_rest_record by done.
    destruct (IH (i + length (record_lines entry.1 (ciphertext entry.2))) rest Hex)
      as (j & Hin & Hnot).
    exists j. split; [apply elem_of_cons; by right|].
    intros [->|Hs]%elem_of_cons; [|done].
    apply scan_rest_ge in Hin.
    pose proof (length_record_lines entry.1 (ciphertext entry.2)). lia.
Qed.

(** C4 (as amended): the decoder finds records by the lines that begin
    with [FILE: ] and nothing else.  The tasks it submits are the starts of
    the records exactly when no ciphertext contains a line feed followed by
    [FILE: ]; when one does, a task is submitted at a line that starts no
    record.  A ciphertext that contains [\nEND_OF_FILE\n] or a line that
    begins with [SIZE: ], and no line feed followed by [FILE: ], is read
    back unchanged. *)
Theorem marker_in_ciphertext (entries : list (list byte * list byte))
    (template_name : string) (store : templates) :
  Forall (fun entry => plain_path entry.1 = true) entries ->
  (scan (length (readlines (archive entries))) (readlines (archive entries)) 0
   = record_starts 0 entries
   <-> Forall (fun entry => contains (ciphertext entry.2) hazard = false) entries) /\
  (Exists (fun entry => contains (ciphertext entry.2) hazard = true) entries ->
   exists j, j ∈ scan (length (readlines (archive entries))) (readlines (archive entries)) 0 /\
             j ∉ record_starts 0 entries) /\
  (Forall (fun entry => contains (ciphertext entry.2) hazard = false) entries ->
   NoDup entries.*1 ->
   apply_template template_name (<[template_name := archive entries]> store) ∅
   = (Applied, list_to_map entries)).
Proof.
  intros Hplain.
  pose proof (recoverable_one_line _ (plain_recoverable _ Hplain)) as Hnl.
  assert (Hspurious :
    Exists (fun entry => contains (ciphertext entry.2) hazard = true) entries ->
    exists j, j ∈ scan (length (readlines (archive entries))) (readlines (archive entries)) 0 /\
              j ∉ record_starts 0 entries).
  { intros Hex. rewrite scan_fuel, readlines_archive by done.
    destruct (scan_rest_archive_hazard entries 0 [] Hex) as (j & Hin & Hnot).
    rewrite app_nil_r in Hin. by exists j. }
  split_and!; [|done|].
  - split; [|by apply scan_archive].
    intros Heq.
    destruct (Forall_Exists_dec
                (fun entry : list byte * list byte =>
                   contains (ciphertext entry.2) hazard = false)
                (fun entry => contains (ciphertext entry.2) hazard = true)
                (fun entry => match contains (ciphertext entry.2) hazard as b
                                return {b = false} + {b = true}
                              with true => right eq_refl | false => left eq_refl end)
                entries) as [Hall|Hex]; [done|].
    destruct (Hspurious Hex) as (j & Hin & Hnot). by rewrite Heq in Hin.
  - intros Hfree Hnodup. by apply apply_plain_archive.
Qed.

Lemma marker_in_ciphertext_witness :
  (scan (length (readlines (archive marker_tree))) (readlines (archive marker_tree)) 0
   = record_starts 0 marker_tree
   <-> Forall (fun entry => contains (ciphertext entry.2) hazard = false) marker_tree) /\
  (Exists (fun entry => contains (ciphertext entry.2) hazard = true) marker_tree ->
   exists j, j ∈ scan (length (readlines (archive marker_tree)))
                   (readlines (archive marker_tree)) 0 /\
             j ∉ record_starts 0 marker_tree) /\
  (Forall (fun entry => contains (ciphertext entry.2) hazard = false) marker_tree ->
   NoDup marker_tree.*1 ->
   apply_template "t" (<["t" := archive marker_tree]> ∅) ∅
   = (Applied, list_to_map marker_tree)).
Proof.
  apply (marker_in_ciphertext marker_tree "t" ∅).
  apply forallb_true_Forall. by vm_compute.
Defined.

(** C4 (counterexample): a tree of one file whose ciphertext is
    [\nEND_OF_FILE\nSIZE: 9\n], so that it contains the end marker and a
    line that begins with [SIZE: ].  The decoder submits the one task of the
    record, and the archive is applied to exactly the tree. *)
Lemma marker_in_ciphertext_counterexample :
  ciphertext delimiter_content
    = [nl] ++ blit "END_OF_FILE" ++ [nl] ++ blit "SIZE: 9" ++ [nl] /\
  contains (ciphertext delimiter_content) END_OF_FILE = true /\
  existsb (fun l => startswith l SIZE_) (readlines (ciphertext delimiter_content)) = true /\
  exists store',
    create_template "t" (map readable delimiter_tree) None ∅ = (Created, store') /\
    scan (length (readlines (archive delimiter_tree))) (readlines (archive delimiter_tree)) 0
    = [0] /\
    apply_template "t" store' ∅ = (Applied, list_to_map delimiter_tree).
Proof.
  split_and!; [by vm_compute..|].
  eexists. split; [apply create_template_readable|]. split; by vm_compute.
Qed.

(** ** C5 *)






(** ** C6 *)

Lemma py_int_py_str_exact (n : nat) : py_int (py_str n) = Ok (Z.of_nat n).
Proof.
  unfold py_str. rewrite py_int_uint_bytes by apply to_uint_not_Nil.
  rewrite DecimalN.Unsigned.of_to. f_equal. lia.
Qed.

(** The loop writes the records of the files that complete before the first
    failure, and of all files when there is none. *)
Lemma write_records_prefix (completed : list source_file) :
  forall written, exists done_ rest,
    completed = map readable done_ ++ rest /\
    (write_records completed written).2 = written ++ archive done_ /\
    ((write_records completed written).1 = None -> rest = []).
Proof.
  induction completed as [|[p [c|e]] completed IH]; intros written.
  - exists [], []. split_and!; [done| |done]. cbn. by rewrite app_nil_r.
  - change (SourceFile p (Ok c)) with (readable (p, c)).
    cbn [write_records]. rewrite process_file_readable. cbn [fst snd].
    destruct (IH (write_record written p (ciphertext c)))
      as (done_ & rest & -> & Hw & Hnone).
    exists ((p, c) :: done_), rest. split_and!; [done| |done].
    by rewrite Hw, write_record_record, archive_cons, <- app_assoc.
  - exists [], (SourceFile p (Raise e) :: completed).
    split_and!; [done| |done]. cbn. by rewrite app_nil_r.
Qed.

(** C6: the archive is the concatenation, in completion order, of one
    record per file that was read, laid out as [FILE: <path>\n],
    [SIZE: <n>\n], the ciphertext and [\nEND_OF_FILE\n]; [<n>] is the
    length of the ciphertext in decimal digits, and the ciphertext is as long
    as the content of the file.  When every file can be read, every file has
    its record. *)
Theorem record_layout (entries : list (list byte * list byte))
    (completed : list source_file) (template_name : string) (store : templates) :
  (exists done_ rest,
     completed = map readable done_ ++ rest /\
     (create_template template_name completed None store).2
     = <[template_name :=
           concat (map (fun entry =>
             blit "FILE: " ++ entry.1 ++ [nl] ++
             blit "SIZE: " ++ py_str (length (ciphertext entry.2)) ++ [nl] ++
             ciphertext entry.2 ++
             [nl] ++ blit "END_OF_FILE" ++ [nl]) done_)]> store) /\
  create_template template_name (map readable entries) None store
  = (Created,
     <[template_name :=
         concat (map (fun entry =>
           blit "FILE: " ++ entry.1 ++ [nl] ++
           blit "SIZE: " ++ py_str (length (ciphertext entry.2)) ++ [nl] ++
           ciphertext entry.2 ++
           [nl] ++ blit "END_OF_FILE" ++ [nl]) entries)]> store) /\
  Forall (fun entry =>
    process_file (readable entry) = Ok (entry.1, ciphertext entry.2) /\
    Forall (fun c => is_digit c = true) (py_str (length (ciphertext entry.2))) /\
    py_int (py_str (length (ciphertext entry.2))) = Ok (Z.of_nat (length (ciphertext entry.2))) /\
    length (ciphertext entry.2) = length entry.2) entries.
Proof.
  split_and!; [|apply create_template_readable|].
  { destruct (write_records_prefix completed []) as (done_ & rest & Hc & Hw & _).
    exists done_, rest. split; [done|]. unfold create_template.
    destruct (write_records completed []) as [[e|] written]; cbn [snd] in *; by subst. }
  apply Forall_forall. intros entry _. split_and!.
  - apply process_file_readable.
  - apply uint_bytes_digits.
  - apply py_int_py_str_exact.
  - apply length_ciphertext.
Qed.

(** ** C7 *)

Lemma length_record_starts (entries : list (list byte * list byte)) :
  forall i, length (record_starts i entries) = length entries.
Proof. induction entries as [|e entries IH]; intros i; simpl; by rewrite ?IH. Qed.

(** C7 (as amended): for every tree of N files, all readable, the archive
    is the concatenation of N records, one per file in the order of
    completion, and the record of an empty file is [FILE: <path>\n],
    [SIZE: 0\n] and [\nEND_OF_FILE\n].  When moreover the paths of the tree
    are plain and no ciphertext contains a line feed followed by [FILE: ],
    the decoder submits N tasks, and applying the archive in an empty
    directory leaves N files. *)
Theorem record_and_file_count (completed : list (list byte * list byte))
    (template_name : string) (store : templates) :
  exists records content,
    create_template template_name (map readable completed) None store
    = (Created, <[template_name := content]> store) /\
    content = concat records /\
    Forall2 (fun entry r => r = record entry.1 (ciphertext entry.2)) completed records /\
    length records = length completed /\
    (forall p, record p (ciphertext []) = blit "FILE: " ++ p ++ [nl] ++ blit "SIZE: 0" ++ [nl]
                                        ++ [nl] ++ blit "END_OF_FILE" ++ [nl]) /\
    forall T,
      NoDup T.*1 ->
      Forall (fun entry => plain_path entry.1 = true) T ->
      Forall (fun entry => contains (ciphertext entry.2) hazard = false) T ->
      completed ≡ₚ T ->
      length records = length T /\
      length (scan (length (readlines content)) (readlines content) 0) = length T /\
      exists fs',
        apply_template template_name (<[template_name := content]> store) ∅ = (Applied, fs') /\
        size fs' = length T.
Proof.
  exists (map (fun entry => record entry.1 (ciphertext entry.2)) completed),
         (archive completed).
  split_and!.
  - apply create_template_readable.
  - done.
  - apply Forall2_fmap_r, Forall_Forall2_diag, Forall_forall. done.
  - by rewrite length_map.
  - done.
  - intros T Hnodup Hplain Hfree Hperm.
    pose proof (Permutation_length Hperm) as Hlen.
    pose proof (apply_plain_archive T completed template_name store
                  Hnodup Hplain Hfree Hperm) as Happly.
    rewrite <- Hperm in Hplain, Hfree.
    split_and!.
    + by rewrite length_map.
    + rewrite scan_archive, length_record_starts; try done.
      by apply recoverable_one_line, plain_recoverable.
    + exists (list_to_map T). split; [done|]. by apply map_size_list_to_map.
Qed.

Lemma record_and_file_count_witness :
  exists records content fs',
    create_template "t1" (map readable (rev sample_tree)) None ∅
    = (Created, <["t1" := content]> ∅) /\
    content = concat records /\
    length records = 2 /\
    length (scan (length (readlines content)) (readlines content) 0) = 2 /\
    apply_template "t1" (<["t1" := content]> ∅) ∅ = (Applied, fs') /\
    size fs' = 2.
Proof.
  destruct (record_and_file_count (rev sample_tree) "t1" ∅)
    as (records & content & Hcreate & Hcontent & _ & _ & _ & Happly).
  destruct (Happly sample_tree) as (Hrecords & Htasks & fs' & Hfs' & Hsize).
  - apply (bool_decide_unpack _). by vm_compute.
  - apply forallb_true_Forall. by vm_compute.
  - apply existsb_false_Forall. by vm_compute.
  - symmetry. apply Permutation_rev.
  - by exists records, content, fs'.
Defined.

(** C7 (counterexample): a tree of one file, whose ciphertext is
    [x\nFILE: y\nSIZE: 0\n]; the decoder submits two tasks and the
    destination holds two files. *)
Lemma record_and_file_count_counterexample :
  length marker_tree = 1 /\
  exists content fs',
    create_template "t" (map readable marker_tree) None ∅
    = (Created, <["t" := content]> ∅) /\
    scan (length (readlines content)) (readlines content) 0 = [0; 3] /\
    apply_template "t" (<["t" := content]> ∅) ∅ = (Applied, fs') /\
    size fs' = 2.
Proof.
  split; [done|].
  exists (archive marker_tree), (<[blit "y" := []]> (list_to_map marker_tree)).
  split_and!; [apply create_template_readable|by vm_compute..].
Qed.

(** ** C8 *)

(** C8: when the template store has no archive of that name,
    [apply_template] reports that the template was not found and leaves the
    destination directory as it was; no line is read and no decode task
    runs.  The report is distinct: it is never given for an archive that
    exists. *)
Theorem apply_template_not_found (template_name : string) (store : templates)
    (fs : files) :
  store !! template_name = None ->
  apply_template template_name store fs = (NotFound, fs) /\
  forall content fs0,
    (apply_template template_name (<[template_name := content]> store) fs0).1 ≠ NotFound.
Proof.
  intros Hnone. unfold apply_template. rewrite Hnone. split; [done|].
  intros content fs0. rewrite lookup_insert_eq. cbv zeta.
  by destruct (run_tasks _ _ _) as [[e|] fs'].
Qed.

Lemma apply_template_not_found_witness :
  apply_template "missing" ∅ {[blit "kept" := blit "old"]}
  = (NotFound, {[blit "kept" := blit "old"]}) /\
  forall content fs0,
    (apply_template "missing" (<["missing" := content]> ∅) fs0).1 ≠ NotFound.
Proof. apply (apply_template_not_found "missing" ∅). reflexivity. Defined.

(** ** C9 *)

(** C9: a decode task takes as ciphertext the first SIZE bytes of
    everything that follows the [SIZE: ] line in the archive, decrypts them,
    and hands the result to the write of the file ([write_file], whatever
    opening the file then does).  Nothing else of the remainder is looked
    at, so the [END_OF_FILE] marker is neither inspected nor compared with
    SIZE, and when fewer than SIZE bytes remain the task decrypts and writes
    the bytes that are there. *)
Theorem record_content_by_size (content : list byte) (i : nat) (l0 l1 : list byte)
    (file_name : list byte) (size : Z) (fs : files) :
  readlines content !! i = Some l0 ->
  readlines content !! (i + 1) = Some l1 ->
  decode (strip (drop 6 l0)) = Ok file_name ->
  py_int (strip (drop 6 l1)) = Ok size ->
  (0 <= size)%Z ->
  exists remainder decrypted_content,
    content = concat (take (i + 2) (readlines content)) ++ remainder /\
    xor_crypt (take (Z.to_nat size) remainder) KEY = Ok decrypted_content /\
    process_template_file (readlines content) i fs
    = write_file file_name decrypted_content fs /\
    (length remainder <= Z.to_nat size ->
       xor_crypt remainder KEY = Ok decrypted_content /\
       length decrypted_content = length remainder) /\
    forall lines',
      lines' !! i = Some l0 ->
      lines' !! (i + 1) = Some l1 ->
      take (Z.to_nat size) (concat (drop (i + 2) lines')) = take (Z.to_nat size) remainder ->
      process_template_file lines' i fs = write_file file_name decrypted_content fs.
Proof.
  intros H0 H1 Hname Hsize Hpos.
  exists (concat (drop (i + 2) (readlines content))),
         (ciphertext (take (Z.to_nat size) (concat (drop (i + 2) (readlines content))))).
  assert (Hslice : forall data, slice_to data size = take (Z.to_nat size) data).
  { intros data. unfold slice_to. by rewrite (proj2 (Z.leb_le _ _) Hpos). }
  split_and!.
  - by rewrite <- concat_app, take_drop, concat_readlines.
  - apply xor_crypt_ciphertext.
  - rewrite (process_template_file_lines _ _ _ _ _ H0 H1), Hname, Hsize.
    cbn [mbind result_bind]. by rewrite Hslice, xor_crypt_ciphertext.
  - intros Hshort. rewrite take_ge by done.
    split; [apply xor_crypt_ciphertext|apply length_ciphertext].
  - intros lines' H0' H1' Htake.
    rewrite (process_template_file_lines _ _ _ _ _ H0' H1'), Hname, Hsize.
    cbn [mbind result_bind]. by rewrite Hslice, Htake, xor_crypt_ciphertext.
Qed.

Lemma record_content_by_size_witness :
  exists remainder decrypted_content,
    blit "FILE: a" ++ [nl] ++ blit "SIZE: 5" ++ [nl] ++ blit "xy"
    = concat (take (0 + 2) (readlines
        (blit "FILE: a" ++ [nl] ++ blit "SIZE: 5" ++ [nl] ++ blit "xy"))) ++ remainder /\
    xor_crypt (take (Z.to_nat 5) remainder) KEY = Ok decrypted_content /\
    process_template_file
      (readlines (blit "FILE: a" ++ [nl] ++ blit "SIZE: 5" ++ [nl] ++ blit "xy")) 0 ∅
    = write_file (blit "a") decrypted_content ∅ /\
    (length remainder <= Z.to_nat 5 ->
       xor_crypt remainder KEY = Ok decrypted_content /\
       length decrypted_content = length remainder) /\
    forall lines',
      lines' !! 0 = Some (blit "FILE: a" ++ [nl]) ->
      lines' !! (0 + 1) = Some (blit "SIZE: 5" ++ [nl]) ->
      take (Z.to_nat 5) (concat (drop (0 + 2) lines')) = take (Z.to_nat 5) remainder ->
      process_template_file lines' 0 ∅ = write_file (blit "a") decrypted_content ∅.
Proof.
  apply (record_content_by_size
           (blit "FILE: a" ++ [nl] ++ blit "SIZE: 5" ++ [nl] ++ blit "xy") 0
           (blit "FILE: a" ++ [nl]) (blit "SIZE: 5" ++ [nl]) (blit "a") 5 ∅);
    [reflexivity|reflexivity|reflexivity|reflexivity|lia].
Defined.

(** ** C10 *)

(** C10 (as amended): the decoder names a file by the stripped text after
    [FILE: ].  For every tree whose paths are on one line, well-formed UTF-8
    and not made of whitespace only, whose stripped paths are separate
    (distinct, made of proper names, none a directory of another), and whose
    ciphertexts hold no line feed followed by [FILE: ], creating the archive
    in any order of completion and applying it in an empty directory writes
    every file at its stripped path: the destination is the tree with the
    paths stripped, a path that begins or ends with whitespace is not in it,
    and it differs from the tree as soon as the tree has such a path. *)
Theorem path_stripped (T completed : list (list byte * list byte))
    (template_name : string) (store : templates) :
  Forall (fun entry => recoverable_path entry.1 = true) T ->
  Forall (fun entry => contains (ciphertext entry.2) hazard = false) T ->
  separate (strip <$> T.*1) = true ->
  completed ≡ₚ T ->
  exists store' fs',
    create_template template_name (map readable completed) None store = (Created, store') /\
    apply_template template_name store' ∅ = (Applied, fs') /\
    fs' = list_to_map (map stripped T) /\
    (forall p c, (p, c) ∈ T -> fs' !! strip p = Some c) /\
    (forall p, edge_space p = true -> fs' !! p = None) /\
    (forall p c, (p, c) ∈ T -> edge_space p = true -> fs' ≠ list_to_map T).
Proof.
  intros Hrec Hfree Hsep Hperm.
  assert (Hnodup : NoDup (map stripped T).*1).
  { rewrite stripped_paths. by apply separate_NoDup. }
  assert (Hedge : forall p, edge_space p = true ->
            (list_to_map (map stripped T) : files) !! p = None).
  { intros p Hp. apply not_elem_of_list_to_map_1. rewrite stripped_paths.
    intros (q & -> & _)%list_elem_of_fmap. by rewrite edge_space_strip in Hp. }
  exists (<[template_name := archive completed]> store), (list_to_map (map stripped T)).
  split_and!; try done.
  - apply create_template_readable.
  - rewrite <- Hperm in Hrec, Hfree.
    rewrite (apply_template_archive _ _ completed) by (by try apply lookup_insert_eq).
    f_equal. apply write_all_separate; [by rewrite stripped_paths|].
    by apply Permutation_map.
  - intros p c Hin. apply elem_of_list_to_map_1; [done|].
    apply list_elem_of_In, in_map_iff. exists (p, c). split; [done|].
    by apply list_elem_of_In.
  - intros p c Hin Hp Heq. specialize (Hedge p Hp). rewrite Heq in Hedge.
    apply not_elem_of_list_to_map_2 in Hedge. apply Hedge.
    apply list_elem_of_fmap. by exists (p, c).
Qed.

Lemma path_stripped_witness :
  exists store' fs',
    create_template "t"
      (map readable (rev [(blit " a ", blit "x"); (blit "b/c ", blit "y")])) None ∅
    = (Created, store') /\
    apply_template "t" store' ∅ = (Applied, fs') /\
    fs' = list_to_map (map stripped [(blit " a ", blit "x"); (blit "b/c ", blit "y")]) /\
    (forall p c, (p, c) ∈ [(blit " a ", blit "x"); (blit "b/c ", blit "y")] ->
       fs' !! strip p = Some c) /\
    (forall p, edge_space p = true -> fs' !! p = None) /\
    (forall p c, (p, c) ∈ [(blit " a ", blit "x"); (blit "b/c ", blit "y")] ->
       edge_space p = true ->
       fs' ≠ list_to_map [(blit " a ", blit "x"); (blit "b/c ", blit "y")]).
Proof.
  apply (path_stripped [(blit " a ", blit "x"); (blit "b/c ", blit "y")]
           (rev [(blit " a ", blit "x"); (blit "b/c ", blit "y")]) "t" ∅).
  - apply forallb_true_Forall. by vm_compute.
  - apply existsb_false_Forall. by vm_compute.
  - vm_compute. reflexivity.
  - symmetry. apply Permutation_rev.
Defined.

(** C10 (counterexample): two files whose paths end with whitespace and
    whose content is written nowhere.  The path made of two spaces strips to
    the empty name, which cannot be opened: the apply raises
    [FileNotFoundError].  The path [a\n] strips to [a], but its line feed
    ends the [FILE: ] line, so the line that is read for the size is empty:
    the apply raises [ValueError].  In both cases the archive was created
    without an error and the destination stays empty. *)
Lemma path_stripped_counterexample :
  (edge_space (blit "  ") = true /\
   strip (blit "  ") = [] /\
   exists store',
     create_template "t" (map readable [(blit "  ", blit "y")]) None ∅ = (Created, store') /\
     apply_template "t" store' ∅ = (ApplyRaised FileNotFoundError, ∅)) /\
  (edge_space (blit "a" ++ [nl]) = true /\
   strip (blit "a" ++ [nl]) = blit "a" /\
   exists store',
     create_template "t" (map readable [(blit "a" ++ [nl], blit "y")]) None ∅
     = (Created, store') /\
     apply_template "t" store' ∅ = (ApplyRaised ValueError, ∅) /\
     (∅ : files) !! blit "a" = None).
Proof.
  split.
  - split_and!; [by vm_compute..|].
    eexists. split; [apply create_template_readable|by vm_compute].
  - split_and!; [by vm_compute..|].
    eexists. split_and!; [apply create_template_readable|by vm_compute|done].
Qed.

(** * Further properties of the cipher *)

Lemma byte_xor_key (c k : byte) : byte_xor c (byte_xor c k) = k.
Proof.
  apply to_N_inj. rewrite !byte_xor_to_N.
  by rewrite <- N.lxor_assoc, N.lxor_nilpotent, N.lxor_0_l.
Qed.

Lemma xor_enumerate_lookup (key data : list byte) :
  forall i out, xor_enumerate i data key = Ok out ->
    forall j c d, data !! j = Some c -> out !! j = Some d ->
      exists kb, key !! ((i + j) mod length key) = Some kb /\ d = byte_xor c kb.
Proof.
  induction data as [|c0 data IH]; intros i out Hout j c d Hc Hd; [done|].
  cbn [xor_enumerate] in Hout.
  destruct (key !! (i mod length key)) as [kb|] eqn:Hkb; [|done].
  destruct (xor_enumerate (S i) data key) as [cs|] eqn:Hcs; [|done].
  cbn in Hout. injection Hout as <-.
  destruct j as [|j]; cbn in Hc, Hd.
  - injection Hc as <-. injection Hd as <-. exists kb. by rewrite Nat.add_0_r.
  - destruct (IH (S i) cs Hcs j c d Hc Hd) as (kb' & Hk' & ->).
    exists kb'. by replace (i + S j) with (S i + j) by lia.
Qed.

(** X1: The key stream is the plaintext XOR the ciphertext: whoever holds a
    file and its archived form reads the key bytes off them. *)
Theorem xor_crypt_key_stream (x k y : list byte) (i : nat) (c d : byte) :
  xor_crypt x k = Ok y ->
  x !! i = Some c ->
  y !! i = Some d ->
  k !! (i mod length k) = Some (byte_xor c d).
Proof.
  intros Hy Hc Hd.
  destruct (xor_enumerate_lookup k x 0 y Hy i c d Hc Hd) as (kb & Hkb & ->).
  by rewrite byte_xor_key.
Qed.

Lemma xor_crypt_key_stream_witness :
  xor_crypt [x00; x00; x00] KEY = Ok (blit "tdm") /\
  KEY !! (2 mod length KEY) = Some (byte_xor x00 x6d).
Proof.
  split; [reflexivity|].
  apply (xor_crypt_key_stream [x00; x00; x00] KEY (blit "tdm") 2 x00 x6d); reflexivity.
Defined.

(** X2: Two contents with the same ciphertext under the same key are equal. *)
Theorem xor_crypt_injective (a b k y : list byte) :
  xor_crypt a k = Ok y -> xor_crypt b k = Ok y -> a = b.
Proof.
  intros Ha%xor_enumerate_involutive Hb%xor_enumerate_involutive. congruence.
Qed.

Lemma xor_crypt_injective_witness :
  xor_crypt (blit "ab") KEY = Ok [x15; x06] /\ blit "ab" = blit "ab".
Proof.
  split; [reflexivity|].
  apply (xor_crypt_injective (blit "ab") (blit "ab") KEY [x15; x06]); reflexivity.
Defined.

Lemma xor_enumerate_app (a b k : list byte) :
  forall i,
    xor_enumerate i (a ++ b) k
    = (ya ← xor_enumerate i a k; yb ← xor_enumerate (i + length a) b k; Ok (ya ++ yb)).
Proof.
  induction a as [|c a IH]; intros i.
  - cbn. rewrite Nat.add_0_r. by destruct (xor_enumerate i b k).
  - cbn [app xor_enumerate length]. destruct (k !! (i mod length k)); [|done].
    rewrite IH. replace (S i + length a) with (i + S (length a)) by lia.
    cbn. destruct (xor_enumerate (S i) a k); [|done]. cbn.
    by destruct (xor_enumerate (i + S (length a)) b k).
Qed.

Lemma xor_enumerate_mod (data k : list byte) :
  forall i j, i mod length k = j mod length k ->
    xor_enumerate i data k = xor_enumerate j data k.
Proof.
  induction data as [|c data IH]; intros i j Hij; [done|].
  cbn [xor_enumerate]. rewrite Hij.
  destruct (k !! (j mod length k)) as [kb|] eqn:Hkb; [|done].
  rewrite (IH (S i) (S j)); [done|].
  apply lookup_lt_Some in Hkb.
  assert (length k ≠ 0) by lia.
  replace (S i) with (i + 1) by lia. replace (S j) with (j + 1) by lia.
  by rewrite <- (Nat.Div0.add_mod_idemp_l i), <- (Nat.Div0.add_mod_idemp_l j), Hij.
Qed.

(** X3: Encrypting in pieces: the second piece continues the key stream where
    the first one stopped, and a first piece of a whole number of key lengths
    lets the pieces be encrypted on their own. *)
Theorem xor_crypt_app (a b k : list byte) :
  k ≠ [] ->
  exists ya yb,
    xor_crypt a k = Ok ya /\
    xor_enumerate (length a) b k = Ok yb /\
    xor_crypt (a ++ b) k = Ok (ya ++ yb) /\
    (length a mod length k = 0 -> xor_crypt b k = Ok yb).
Proof.
  intros Hk. unfold xor_crypt.
  destruct (xor_enumerate_spec k Hk a 0) as (ya & Ha & _).
  destruct (xor_enumerate_spec k Hk b (length a)) as (yb & Hb & _).
  exists ya, yb. split_and!; try done.
  - by rewrite xor_enumerate_app, Ha; cbn; rewrite Hb.
  - intros Hmod. rewrite <- Hb. apply xor_enumerate_mod.
    rewrite Hmod. apply Nat.Div0.mod_0_l.
Qed.

Lemma xor_crypt_app_witness :
  exists ya yb,
    xor_crypt (blit "0123456789") KEY = Ok ya /\
    xor_enumerate (length (blit "0123456789")) (blit "ab") KEY = Ok yb /\
    xor_crypt (blit "0123456789" ++ blit "ab") KEY = Ok (ya ++ yb) /\
    (length (blit "0123456789") mod length KEY = 0 -> xor_crypt (blit "ab") KEY = Ok yb).
Proof. apply (xor_crypt_app (blit "0123456789") (blit "ab") KEY). discriminate. Defined.

(** X4: [xor_crypt] raises exactly when the key is empty and there is data, and
    then it raises [ZeroDivisionError]. *)
Theorem xor_crypt_raises (data k : list byte) (e : exn) :
  xor_crypt data k = Raise e <-> e = ZeroDivisionError /\ k = [] /\ data ≠ [].
Proof.
  split.
  - intros Hraise. destruct k as [|kb k].
    + destruct data as [|c data]; [done|]. cbn in Hraise. by injection Hraise as <-.
    + destruct (xor_enumerate_spec (kb :: k) ltac:(done) data 0) as (y & Hy & _).
      unfold xor_crypt in Hraise. congruence.
  - intros (-> & -> & Hdata). by destruct data.
Qed.

(** * Further properties of the decoder *)

(** ** What the scanner submits *)

Lemma scan_spec (fuel : nat) :
  forall lines j i, i ∈ scan fuel lines j ->
    j <= i /\ exists l, lines !! i = Some l /\ startswith l FILE_ = true.
Proof.
  induction fuel as [|fuel IH]; intros lines j i; cbn [scan].
  - by intros ?%elem_of_nil.
  - destruct (lines !! j) as [l|] eqn:Hl; [|by intros ?%elem_of_nil].
    destruct (startswith l FILE_) eqn:Hs.
    + intros [->|Hi%IH]%elem_of_cons; [by eauto|].
      destruct Hi as [? Hi]. split; [lia|done].
    + intros Hi%IH. destruct Hi as [? Hi]. split; [lia|done].
Qed.

Lemma scan_gap (fuel : nat) :
  forall lines j m n a b,
    m < n -> scan fuel lines j !! m = Some a -> scan fuel lines j !! n = Some b ->
    a + 3 <= b.
Proof.
  induction fuel as [|fuel IH]; intros lines j m n a b Hmn; cbn [scan]; [done|].
  destruct (lines !! j) as [l|]; [|done].
  destruct (startswith l FILE_); [|by apply IH].
  destruct n as [|n]; [lia|]. destruct m as [|m]; cbn.
  - intros [= <-] Hb. apply list_elem_of_lookup_2, scan_spec in Hb. lia.
  - apply IH. lia.
Qed.

Lemma filter_drop_le {A} (f : A -> bool) (l : list A) (n : nat) :
  length (List.filter f (drop n l)) <= length (List.filter f l).
Proof.
  revert n. induction l as [|x l IH]; intros [|n]; cbn; try lia.
  specialize (IH n). destruct (f x); cbn; lia.
Qed.

Lemma scan_count (fuel : nat) :
  forall lines j, length (scan fuel lines j) <= total_files (drop j lines).
Proof.
  unfold total_files.
  induction fuel as [|fuel IH]; intros lines j; cbn [scan length]; [lia|].
  destruct (lines !! j) as [l|] eqn:Hl; [|cbn; lia].
  rewrite (drop_S _ _ _ Hl). cbn [List.filter].
  destruct (startswith l FILE_); cbn [length].
  - specialize (IH lines (j + 3)).
    pose proof (filter_drop_le (fun line => startswith line FILE_) (drop (S j) lines) 2) as H.
    rewrite drop_drop in H. replace (S j + 2) with (j + 3) in H by lia. lia.
  - replace (S j) with (j + 1) by lia. apply IH.
Qed.

(** X5: the decode tasks of any archive.  Every task starts at a line that
    begins with [FILE: ]; two tasks are at least three lines apart; and there
    are at most as many tasks as the progress bar expects, so the bar never
    runs over its total. *)
Theorem scan_tasks (content : list byte) :
  (forall i, i ∈ scan (length (readlines content)) (readlines content) 0 ->
     exists l, readlines content !! i = Some l /\ startswith l FILE_ = true) /\
  (forall m n a b, m < n ->
     scan (length (readlines content)) (readlines content) 0 !! m = Some a ->
     scan (length (readlines content)) (readlines content) 0 !! n = Some b ->
     a + 3 <= b) /\
  length (scan (length (readlines content)) (readlines content) 0)
  <= total_files (readlines content).
Proof.
  split_and!.
  - intros i Hi. by apply scan_spec in Hi as [_ ?].
  - apply scan_gap.
  - apply (scan_count _ _ 0).
Qed.

(** ** What a run leaves untouched *)





(** X7: an archive with no line that begins with [FILE: ] (an empty file,
    or a file that is no archive at all) is applied successfully and changes
    nothing. *)
Theorem apply_template_no_marker (template_name : string) (store : templates)
    (content : list byte) (fs : files) :
  store !! template_name = Some content ->
  Forall (fun l => startswith l FILE_ = false) (readlines content) ->
  apply_template template_name store fs = (Applied, fs).
Proof.
  intros Hstore Hall. unfold apply_template. rewrite Hstore. cbv zeta.
  rewrite scan_fuel.
  pose proof (scan_rest_no_marker (readlines content) [] 0 Hall) as Hscan.
  rewrite app_nil_r in Hscan. by rewrite Hscan.
Qed.

Lemma apply_template_no_marker_witness :
  apply_template "t" {["t" := blit "not an" ++ [nl] ++ blit "archive"]}
    {[blit "kept" := blit "old"]}
  = (Applied, {[blit "kept" := blit "old"]}).
Proof.
  apply (apply_template_no_marker "t" _ (blit "not an" ++ [nl] ++ blit "archive")).
  - reflexivity.
  - apply existsb_false_Forall. reflexivity.
Defined.

(** ** Damaged archives *)

(** X9: an archive cut off on a [FILE: ] line.  Well-formed records (paths
    on one line, well-formed UTF-8, not whitespace only; ciphertexts without
    a line feed followed by [FILE: ]; stripped paths that are separate) are
    followed by a single last line that begins with [FILE: ].  Applied in an
    empty directory, the archive raises [IndexError], and every complete
    record has been extracted to its stripped path. *)
Theorem apply_template_cut_off (template_name : string) (store : templates)
    (entries : list (list byte * list byte)) (last_line : list byte) :
  Forall (fun entry => recoverable_path entry.1 = true) entries ->
  Forall (fun entry => contains (ciphertext entry.2) hazard = false) entries ->
  separate (strip <$> entries.*1) = true ->
  readlines last_line = [last_line] ->
  startswith last_line FILE_ = true ->
  utf8_valid (drop 6 last_line) = true ->
  apply_template template_name (<[template_name := archive entries ++ last_line]> store) ∅
  = (ApplyRaised IndexError, list_to_map (map stripped entries)).
Proof.
  intros Hrec Hfree Hsep Hone Hs Hutf.
  rewrite apply_template_archive_app by done.
  rewrite (write_all_separate (map stripped entries)) by (by rewrite ?stripped_paths).
  unfold apply_template. rewrite lookup_insert_eq. cbv zeta. rewrite Hone.
  cbn [length scan lookup list_lookup]. rewrite Hs. cbn [scan run_tasks].
  unfold process_template_file, index. cbn [lookup list_lookup mbind result_bind].
  unfold decode. by rewrite (utf8_valid_strip _ Hutf).
Qed.

Lemma apply_template_cut_off_witness :
  apply_template "t" (<["t" := archive sample_tree ++ blit "FILE: d.txt"]> ∅) ∅
  = (ApplyRaised IndexError, list_to_map (map stripped sample_tree)).
Proof.
  apply (apply_template_cut_off "t" ∅ sample_tree (blit "FILE: d.txt")).
  - apply forallb_true_Forall. reflexivity.
  - apply existsb_false_Forall. reflexivity.
  - vm_compute. reflexivity.
  - reflexivity.
  - reflexivity.
  - reflexivity.
Defined.

(** ** Applying into a directory that holds files *)

(** X11: applying a second archive into the directory that a first one has
    left.  Two trees of plain paths, ciphertexts without a line feed
    followed by [FILE: ], whose paths taken together are separate: the
    first archive, applied in an empty directory, leaves its tree; the
    second one, applied there, overwrites the files of the same paths and
    keeps all the others; applying it once more changes nothing. *)
Theorem apply_template_overwrites (T1 T2 : list (list byte * list byte))
    (name1 name2 : string) (store : templates) :
  Forall (fun entry => plain_path entry.1 = true) T1 ->
  Forall (fun entry => contains (ciphertext entry.2) hazard = false) T1 ->
  Forall (fun entry => plain_path entry.1 = true) T2 ->
  Forall (fun entry => contains (ciphertext entry.2) hazard = false) T2 ->
  NoDup T1.*1 ->
  NoDup T2.*1 ->
  separate (remove_dups (T1.*1 ++ T2.*1)) = true ->
  store !! name1 = Some (archive T1) ->
  store !! name2 = Some (archive T2) ->
  apply_template name1 store ∅ = (Applied, list_to_map T1) /\
  apply_template name2 store (list_to_map T1)
  = (Applied, list_to_map T2 ∪ list_to_map T1) /\
  apply_template name2 store (list_to_map T2 ∪ list_to_map T1)
  = (Applied, list_to_map T2 ∪ list_to_map T1).
Proof.
  intros Hplain1 Hfree1 Hplain2 Hfree2 Hnodup1 Hnodup2 _ Hstore1 Hstore2.
  assert (Hmap : (list_to_map (rev T2) : files) = list_to_map T2).
  { symmetry. apply list_to_map_proper; [done|]. apply Permutation_rev. }
  assert (Happly : forall fs0 : files,
    apply_template name2 store fs0 = (Applied, list_to_map T2 ∪ fs0)).
  { intros fs0. rewrite (apply_template_archive _ _ T2) by (by try apply plain_recoverable).
    by rewrite map_stripped_plain, write_all_list_to_map, Hmap. }
  split_and!.
  - rewrite (apply_template_archive _ _ T1) by (by try apply plain_recoverable).
    by rewrite map_stripped_plain, (write_all_empty T1 T1).
  - apply Happly.
  - by rewrite Happly, (assoc_L (∪)), (idemp_L (∪)).
Qed.

Lemma apply_template_overwrites_witness :
  apply_template "t1"
    {["t1" := archive sample_tree;
      "t2" := archive [(blit "a.txt", blit "new"); (blit "b/d", blit "z")]]} ∅
  = (Applied, list_to_map sample_tree) /\
  apply_template "t2"
    {["t1" := archive sample_tree;
      "t2" := archive [(blit "a.txt", blit "new"); (blit "b/d", blit "z")]]}
    (list_to_map sample_tree)
  = (Applied,
     list_to_map [(blit "a.txt", blit "new"); (blit "b/d", blit "z")]
     ∪ list_to_map sample_tree) /\
  apply_template "t2"
    {["t1" := archive sample_tree;
      "t2" := archive [(blit "a.txt", blit "new"); (blit "b/d", blit "z")]]}
    (list_to_map [(blit "a.txt", blit "new"); (blit "b/d", blit "z")]
     ∪ list_to_map sample_tree)
  = (Applied,
     list_to_map [(blit "a.txt", blit "new"); (blit "b/d", blit "z")]
     ∪ list_to_map sample_tree).
Proof.
  apply (apply_template_overwrites sample_tree
           [(blit "a.txt", blit "new"); (blit "b/d", blit "z")] "t1" "t2").
  - apply forallb_true_Forall. by vm_compute.
  - apply existsb_false_Forall. by vm_compute.
  - apply forallb_true_Forall. by vm_compute.
  - apply existsb_false_Forall. by vm_compute.
  - apply (bool_decide_unpack _). by vm_compute.
  - apply (bool_decide_unpack _). by vm_compute.
  - vm_compute. reflexivity.
  - reflexivity.
  - reflexivity.
Defined.

(** ** Paths made of whitespace *)

Lemma process_record_any (pre rest : list (list byte)) (p c : list byte) (fs : files) :
  nl ∉ p ->
  utf8_valid p = true ->
  process_template_file (pre ++ record_lines p (ciphertext c) ++ rest) (length pre) fs
  = write_file (strip p) c fs.
Proof.
  intros Hnl Hutf.
  unfold record_lines. cbn [app]. rewrite process_template_file_at.
  replace (drop 6 (FILE_ ++ p ++ [nl])) with (p ++ [nl]) by done.
  rewrite strip_app_space by done.
  unfold decode. rewrite (utf8_valid_strip p Hutf). cbn [mbind result_bind].
  replace (drop 6 (SIZE_ ++ py_str (length (ciphertext c)) ++ [nl]))
    with (py_str (length (ciphertext c)) ++ [nl]) by done.
  rewrite py_int_py_str. cbn [mbind result_bind].
  rewrite !concat_app, concat_readlines, <- !app_assoc, slice_to_length.
  by rewrite xor_crypt_plaintext.
Qed.

Lemma run_tasks_archive_any (entries : list (list byte * list byte)) :
  forall pre fs,
    Forall (fun entry => (nl ∉ entry.1) /\ utf8_valid entry.1 = true) entries ->
    run_tasks (pre ++ archive_lines entries) (record_starts (length pre) entries) fs
    = (if decide (Forall (fun entry => strip entry.1 ≠ []) entries)
       then None else Some FileNotFoundError,
       write_all fs (filter (fun entry => entry.1 ≠ []) (map stripped entries))).
Proof.
  induction entries as [|entry entries IH]; intros pre fs Hall.
  - cbn. by rewrite decide_True.
  - inversion Hall as [|? ? [Hnl Hutf] Hall']; subst.
    cbn [record_starts run_tasks map]. rewrite archive_lines_cons.
    rewrite process_record_any by done.
    rewrite app_assoc, <- length_app.
    destruct (decide (strip entry.1 = [])) as [Hblank|Hname].
    + rewrite Hblank. cbn [write_file]. rewrite IH by done.
      rewrite filter_cons_False by (by cbn; intros ?).
      rewrite (decide_False (P := Forall _ (entry :: entries))); [done|].
      by intros [? _]%Forall_cons.
    + rewrite write_file_named by done. rewrite IH by done.
      rewrite filter_cons_True by done.
      destruct (decide (Forall _ entries)) as [Hes|Hes].
      * by rewrite decide_True by (by constructor).
      * rewrite decide_False; [done|]. by intros [_ ?]%Forall_cons.
Qed.

Lemma named_paths (entries : list (list byte * list byte)) :
  (filter (fun entry => entry.1 ≠ []) (map stripped entries)).*1
  = filter (fun p => p ≠ []) (strip <$> entries.*1).
Proof.
  induction entries as [|[p c] entries IH]; [done|].
  cbn [map fmap list_fmap fst]. unfold stripped at 1. cbn [fst snd].
  destruct (decide (strip p = [])) as [Hblank|Hname].
  - rewrite !filter_cons_False by (by cbn; intros ?). apply IH.
  - rewrite !filter_cons_True by done. cbn [fmap list_fmap fst]. f_equal. apply IH.
Qed.

(** X12: a file whose path is made of whitespace only is archived but not
    extracted.  For every tree whose paths are on one line and well-formed
    UTF-8, whose ciphertexts hold no line feed followed by [FILE: ], and
    whose stripped paths, the empty ones apart, are separate, the archive
    is created, and applying it in an empty directory writes the files
    whose stripped path is not empty; it succeeds when there is no blank
    path and raises [FileNotFoundError] when there is one. *)
Theorem blank_paths_not_extracted (entries : list (list byte * list byte))
    (template_name : string) (store : templates) :
  Forall (fun entry => (nl ∉ entry.1) /\ utf8_valid entry.1 = true) entries ->
  Forall (fun entry => contains (ciphertext entry.2) hazard = false) entries ->
  separate (filter (fun p => p ≠ []) (strip <$> entries.*1)) = true ->
  create_template template_name (map readable entries) None store
  = (Created, <[template_name := archive entries]> store) /\
  apply_template template_name (<[template_name := archive entries]> store) ∅
  = (if decide (Forall (fun entry => strip entry.1 ≠ []) entries)
     then Applied else ApplyRaised FileNotFoundError,
     list_to_map (filter (fun entry => entry.1 ≠ []) (map stripped entries))).
Proof.
  intros Hall Hfree Hsep. split; [apply create_template_readable|].
  assert (Hnl : Forall (fun entry : list byte * list byte => nl ∉ entry.1) entries).
  { eapply Forall_impl; [exact Hall|]. by intros e [? _]. }
  unfold apply_template. rewrite lookup_insert_eq. cbv zeta.
  rewrite scan_archive, readlines_archive by done.
  pose proof (run_tasks_archive_any entries [] ∅ Hall) as Hrun.
  cbn [app length] in Hrun. rewrite Hrun.
  rewrite (write_all_separate (filter (fun entry => entry.1 ≠ []) (map stripped entries)))
    by (by rewrite ?named_paths).
  by case_decide.
Qed.

Lemma blank_paths_not_extracted_witness :
  create_template "t" (map readable [(blit "a", blit "x"); (blit "  ", blit "y")]) None ∅
  = (Created, <["t" := archive [(blit "a", blit "x"); (blit "  ", blit "y")]]> ∅) /\
  apply_template "t" (<["t" := archive [(blit "a", blit "x"); (blit "  ", blit "y")]]> ∅) ∅
  = (if decide (Forall (fun entry : list byte * list byte => strip entry.1 ≠ [])
                  [(blit "a", blit "x"); (blit "  ", blit "y")])
     then Applied else ApplyRaised FileNotFoundError,
     list_to_map (filter (fun entry : list byte * list byte => entry.1 ≠ [])
                    (map stripped [(blit "a", blit "x"); (blit "  ", blit "y")]))).
Proof.
  apply (blank_paths_not_extracted [(blit "a", blit "x"); (blit "  ", blit "y")] "t" ∅).
  - repeat constructor; by (apply (bool_decide_unpack _); vm_compute).
  - apply existsb_false_Forall. reflexivity.
  - vm_compute. reflexivity.
Defined.

(** * The commands on the template store *)

(** X15: after [delete_template], applying the template reports that it was
    not found and leaves the destination as it was, whether or not the
    template existed; the deletion is reported exactly when it existed, a
    missing template leaves the store unchanged, and no other template is
    touched. *)
Theorem delete_template_then_apply (template_name other : string) (store : templates)
    (fs : files) :
  other ≠ template_name ->
  apply_template template_name (delete_template template_name store).2 fs = (NotFound, fs) /\
  ((delete_template template_name store).1 = Deleted <-> is_Some (store !! template_name)) /\
  (store !! template_name = None -> (delete_template template_name store).2 = store) /\
  forall fs0,
    apply_template other (delete_template template_name store).2 fs0
    = apply_template other store fs0.
Proof.
  intros Hother. unfold delete_template.
  destruct (store !! template_name) as [content|] eqn:Hstore; cbn [fst snd].
  - split_and!; [|by split; eauto|done|].
    + unfold apply_template. by rewrite lookup_delete_eq.
    + intros fs0. apply apply_template_lookup. by rewrite lookup_delete_ne.
  - split_and!; [|split; [done|by intros []]|done|done].
    unfold apply_template. by rewrite Hstore.
Qed.

Lemma delete_template_then_apply_witness :
  apply_template "t" (delete_template "t" {["t" := archive sample_tree]}).2 ∅ = (NotFound, ∅) /\
  ((delete_template "t" {["t" := archive sample_tree]}).1 = Deleted
   <-> is_Some (({["t" := archive sample_tree]} : templates) !! "t")) /\
  (({["t" := archive sample_tree]} : templates) !! "t" = None ->
   (delete_template "t" {["t" := archive sample_tree]}).2 = {["t" := archive sample_tree]}) /\
  forall fs0,
    apply_template "u" (delete_template "t" {["t" := archive sample_tree]}).2 fs0
    = apply_template "u" {["t" := archive sample_tree]} fs0.
Proof.
  apply (delete_template_then_apply "t" "u" {["t" := archive sample_tree]} ∅).
  discriminate.
Defined.

(** * The command line *)

Lemma main_two (prog command : string) (rest : list string) (isfile : string -> bool) :
  isfile command = false ->
  main (prog :: command :: rest) isfile
  = if bool_decide (command = "create") && (length rest =? 1)
    then CreateTemplate (rest !!! 0)
    else if bool_decide (command = "get") && (length rest =? 1)
    then ApplyTemplate (rest !!! 0)
    else if bool_decide (command = "delete") && (length rest =? 1)
    then DeleteTemplate (rest !!! 0)
    else if bool_decide (command = "list") then ListTemplates
    else if bool_decide (command = "-v") then ActualVersion
    else if bool_decide (command = "-u") then CheckForUpdates
    else if bool_decide (command = "export") && (length rest =? 2)
    then ExportTemplate (rest !!! 0) (rest !!! 1)
    else if bool_decide (command = "import") && (1 <=? length rest)
    then ImportTemplate (rest !!! 0) (if length rest =? 2 then Some (rest !!! 1) else None)
    else if bool_decide (command = "change-dir") && (length rest =? 1)
    then ChangeTemplatesDir (rest !!! 0)
    else ShowHelp.
Proof. intros Hfile. unfold main. cbn -[bool_decide]. by rewrite Hfile. Qed.

Ltac main_cases rest :=
  destruct rest as [|? [|? [|? ?]]]; cbn -[bool_decide];
  repeat (case_bool_decide; subst; cbn -[bool_decide]; try done).

(** X17: the commands that change or read a template run only for their
    exact form, and any other form of them shows the help.  [main] calls
    [create_template], [apply_template], [delete_template],
    [export_template] or [change_templates_dir] exactly when the command
    word is the first argument, is not the path of a file, and is followed
    by exactly the arguments of the command.  It shows the help exactly when
    there is no first argument, or the first argument is not the path of a
    file, is none of [list], [-v] and [-u], and is not a command word with
    its number of arguments: one for [create], [get], [delete] and
    [change-dir], two for [export], one or more for [import]. *)
Theorem main_store_commands (argv : list string) (isfile : string -> bool) (a b : string) :
  (main argv isfile = CreateTemplate a
   <-> exists prog, argv = [prog; "create"; a] /\ isfile "create" = false) /\
  (main argv isfile = ApplyTemplate a
   <-> exists prog, argv = [prog; "get"; a] /\ isfile "get" = false) /\
  (main argv isfile = DeleteTemplate a
   <-> exists prog, argv = [prog; "delete"; a] /\ isfile "delete" = false) /\
  (main argv isfile = ExportTemplate a b
   <-> exists prog, argv = [prog; "export"; a; b] /\ isfile "export" = false) /\
  (main argv isfile = ChangeTemplatesDir a
   <-> exists prog, argv = [prog; "change-dir"; a] /\ isfile "change-dir" = false) /\
  (main argv isfile = ShowHelp
   <-> length argv < 2 \/
       exists prog command rest,
         argv = prog :: command :: rest /\
         isfile command = false /\
         command ≠ "list" /\ command ≠ "-v" /\ command ≠ "-u" /\
         (command = "create" \/ command = "get" \/ command = "delete"
          \/ command = "change-dir" -> length rest ≠ 1) /\
         (command = "export" -> length rest ≠ 2) /\
         (command = "import" -> rest = [])).
Proof.
  split_and!.
  1-5: (split; [|by intros (prog & -> & Hfile); rewrite main_two by done]);
    (destruct argv as [|prog [|command rest]]; [done|done|]);
    (destruct (isfile command) eqn:Hfile;
       [by unfold main; cbn -[bool_decide]; rewrite Hfile|]);
    rewrite main_two by done; main_cases rest; intros [= ? ?] || intros [= ?]; subst; eauto.
  destruct argv as [|prog [|command rest]].
  - split; [intros _; left; cbn; lia|done].
  - split; [intros _; left; cbn; lia|done].
  - destruct (isfile command) eqn:Hfile.
    + unfold main. cbn -[bool_decide]. rewrite Hfile. split; [done|].
      intros [Hlen|(prog' & command' & rest' & [= -> -> ->] & Hfile' & _)];
        [cbn in Hlen; lia|congruence].
    + rewrite main_two by done. split.
      * intros Hhelp. right. exists prog, command, rest.
        split; [done|]. split; [done|].
        revert Hhelp. main_cases rest; intros _; split_and!; try done;
          by (intros [?|[?|[?|?]]]; subst) || (by intros ->).
      * intros [Hlen|(prog' & command' & rest' & [= <- <- <-] & _ & Hl & Hv & Hu & H1 & H2 & H3)];
          [cbn in Hlen; lia|].
        repeat (case_bool_decide; subst; cbn -[bool_decide]; try done).
        all: destruct rest as [|? [|? [|? ?]]]; cbn; try done.
        all: try (exfalso; apply H1; [eauto|done]).
        all: try (exfalso; by apply H2).
        all: try (by specialize (H3 eq_refl)).
Qed.

(** X18: the commands that take whatever follows.  A first argument that is
    the path of an existing file is imported, whatever else it may be, a
    command word included; [import] takes its template name from the fourth
    argument only when there are exactly four, and drops it otherwise;
    [list], [-v] and [-u] ignore any further argument. *)
Theorem main_lenient_commands (argv : list string) (isfile : string -> bool)
    (f : string) (name : option string) :
  (main argv isfile = ImportTemplate f name
   <-> (exists prog rest, argv = prog :: f :: rest /\ isfile f = true /\ name = None) \/
       (exists prog rest,
          argv = prog :: "import" :: f :: rest /\ isfile "import" = false /\
          name = match rest with [n] => Some n | _ => None end)) /\
  (main argv isfile = ListTemplates
   <-> exists prog rest, argv = prog :: "list" :: rest /\ isfile "list" = false) /\
  (main argv isfile = ActualVersion
   <-> exists prog rest, argv = prog :: "-v" :: rest /\ isfile "-v" = false) /\
  (main argv isfile = CheckForUpdates
   <-> exists prog rest, argv = prog :: "-u" :: rest /\ isfile "-u" = false).
Proof.
  split_and!; split.
  - destruct argv as [|prog [|command rest]]; [done|done|].
    destruct (isfile command) eqn:Hfile.
    + unfold main. cbn -[bool_decide]. rewrite Hfile. intros [= <- <-]. left. eauto.
    + rewrite main_two by done. main_cases rest; intros [= <- <-]; right; eauto.
  - intros [(prog & rest & -> & Hfile & ->)|(prog & rest & -> & Hfile & ->)].
    + unfold main. cbn -[bool_decide]. by rewrite Hfile.
    + rewrite main_two by done. by destruct rest as [|? [|? ?]].
  - destruct argv as [|prog [|command rest]]; [done|done|].
    destruct (isfile command) eqn:Hfile;
      [by unfold main; cbn -[bool_decide]; rewrite Hfile|].
    rewrite main_two by done. main_cases rest; eauto.
  - intros (prog & rest & -> & Hfile). rewrite main_two by done.
    by destruct rest as [|? [|? [|? ?]]].
  - destruct argv as [|prog [|command rest]]; [done|done|].
    destruct (isfile command) eqn:Hfile;
      [by unfold main; cbn -[bool_decide]; rewrite Hfile|].
    rewrite main_two by done. main_cases rest; eauto.
  - intros (prog & rest & -> & Hfile). rewrite main_two by done.
    by destruct rest as [|? [|? [|? ?]]].
  - destruct argv as [|prog [|command rest]]; [done|done|].
    destruct (isfile command) eqn:Hfile;
      [by unfold main; cbn -[bool_decide]; rewrite Hfile|].
    rewrite main_two by done. main_cases rest; eauto.
  - intros (prog & rest & -> & Hfile). rewrite main_two by done.
    by destruct rest as [|? [|? [|? ?]]].
Qed.

(** * The template directory *)

Section template_directory_properties.

Variable default_dir : string -> string.

(** X19: where the templates are kept.  With [APPDATA] unset,
    [get_templates_dir] raises [TypeError] and changes nothing, also when
    [TDMCLI_TEMPLATE_DIR] is set.  When it returns, the directory is the one
    named by [TDMCLI_TEMPLATE_DIR], or the default one, its path is not
    empty, it exists afterwards, every directory that existed is as it was,
    and a second call returns the same directory and changes nothing. *)
Theorem get_templates_dir_spec (w : world) :
  (APPDATA w = None -> get_templates_dir default_dir w = (inl TypeError, w)) /\
  (forall d w',
     get_templates_dir default_dir w = (inr d, w') ->
     d ≠ "" /\
     (exists appdata, APPDATA w = Some appdata /\
        d = default (default_dir appdata) (TDMCLI_TEMPLATE_DIR w)) /\
     is_Some (directories w' !! d) /\
     (forall p contents, directories w !! p = Some contents ->
        p ≠ "" -> directories w' !! p = Some contents) /\
     get_templates_dir default_dir w' = (inr d, w')).
Proof.
  unfold get_templates_dir. split; [by intros ->|].
  intros d w'. destruct (APPDATA w) as [appdata|] eqn:Happ; [|done].
  destruct (exists_dir w _) eqn:Hex.
  - intros [= <- <-]. rewrite Happ, Hex.
    unfold exists_dir in Hex.
    apply andb_true_iff in Hex as [Hne%bool_decide_eq_true Hsome%bool_decide_eq_true].
    split_and!; eauto.
  - unfold makedirs. case_decide as Hempty; [done|]. intros [= <- <-]. cbn.
    rewrite Happ. unfold exists_dir. cbn.
    rewrite lookup_insert_eq.
    rewrite bool_decide_eq_true_2 by done. rewrite bool_decide_eq_true_2 by eauto.
    cbn. split_and!; eauto.
    intros p contents Hp Hpne. rewrite lookup_insert_ne; [done|].
    intros <-. unfold exists_dir in Hex.
    apply andb_false_iff in Hex as [H%bool_decide_eq_false|H%bool_decide_eq_false];
      [done|apply H; eauto].
Qed.

(** Making sure that a directory exists keeps what it holds. *)
Lemma ensure_dir (w : world) (p : string) :
  p ≠ "" ->
  (if exists_dir w p then inr w else makedirs p w)
  = inr (World (TDMCLI_TEMPLATE_DIR w) (APPDATA w)
           (<[p := default ∅ (directories w !! p)]> (directories w))).
Proof.
  intros Hp. destruct w as [t a dirs]. unfold exists_dir, makedirs.
  cbn [directories TDMCLI_TEMPLATE_DIR APPDATA].
  rewrite (bool_decide_eq_true_2 (p ≠ "")) by done. cbn [andb].
  destruct (dirs !! p) as [contents|] eqn:Hdir; cbn [default].
  - rewrite bool_decide_eq_true_2 by eauto. by rewrite insert_id.
  - rewrite bool_decide_eq_false_2 by (by intros []). by rewrite decide_False.
Qed.

Lemma get_templates_dir_ensure (w : world) (appdata : string) :
  APPDATA w = Some appdata ->
  default (default_dir appdata) (TDMCLI_TEMPLATE_DIR w) ≠ "" ->
  get_templates_dir default_dir w
  = (inr (default (default_dir appdata) (TDMCLI_TEMPLATE_DIR w)),
     World (TDMCLI_TEMPLATE_DIR w) (APPDATA w)
       (<[default (default_dir appdata) (TDMCLI_TEMPLATE_DIR w) :=
            default ∅ (directories w !! default (default_dir appdata) (TDMCLI_TEMPLATE_DIR w))]>
          (directories w))).
Proof.
  intros Happ Hne. unfold get_templates_dir. rewrite Happ.
  pose proof (ensure_dir w _ Hne) as Hens.
  destruct (exists_dir w _).
  - injection Hens as Hw. rewrite Happ in Hw. by rewrite <- Hw.
  - rewrite Hens. by rewrite Happ.
Qed.

(** X21: changing the directory without moving the templates.  With any
    answer other than [y] both directories keep what they hold, and since
    [TDMCLI_TEMPLATE_DIR] now names the new directory, a template that is
    only in the old one is no longer found there. *)
Theorem change_templates_dir_leaves (new_dir old_dir appdata transfer_choice : string)
    (w : world) :
  APPDATA w = Some appdata ->
  old_dir = default (default_dir appdata) (TDMCLI_TEMPLATE_DIR w) ->
  new_dir ≠ "" ->
  old_dir ≠ "" ->
  transfer_choice ≠ "y" ->
  exists w' store,
    change_templates_dir default_dir new_dir transfer_choice w = (inr NotTransferred, w') /\
    directories w' !! old_dir = Some (default ∅ (directories w !! old_dir)) /\
    get_templates_dir default_dir w' = (inr new_dir, w') /\
    directories w' !! new_dir = Some store /\
    store = default ∅ (directories w !! new_dir) /\
    forall template_name fs,
      store !! template_name = None ->
      apply_template template_name store fs = (NotFound, fs).
Proof.
  intros Happ Hold Hnew Holdne Hchoice.
  unfold change_templates_dir. rewrite (ensure_dir w new_dir Hnew).
  rewrite (get_templates_dir_ensure _ appdata) by (cbn; by rewrite <- ?Hold).
  cbn [TDMCLI_TEMPLATE_DIR APPDATA directories]. rewrite <- Hold.
  rewrite decide_False by done.
  eexists. exists (default ∅ (directories w !! new_dir)). split; [done|].
  cbn [TDMCLI_TEMPLATE_DIR APPDATA directories]. rewrite Happ.
  assert (Hnewdir :
    (<[old_dir := default ∅ (<[new_dir := default ∅ (directories w !! new_dir)]>
                               (directories w) !! old_dir)]>
       (<[new_dir := default ∅ (directories w !! new_dir)]> (directories w)))
    !! new_dir = Some (default ∅ (directories w !! new_dir))).
  { destruct (decide (old_dir = new_dir)) as [->|Hne].
    - by rewrite !lookup_insert_eq.
    - by rewrite lookup_insert_ne, lookup_insert_eq. }
  split_and!; try done.
  - rewrite lookup_insert_eq. destruct (decide (old_dir = new_dir)) as [->|Hne].
    + by rewrite lookup_insert_eq.
    + by rewrite lookup_insert_ne.
  - unfold get_templates_dir, exists_dir. cbn. rewrite Hnewdir.
    rewrite bool_decide_eq_true_2 by done. by rewrite bool_decide_eq_true_2 by eauto.
  - intros template_name fs Hnone. unfold apply_template. by rewrite Hnone.
Qed.

End template_directory_properties.

Lemma change_templates_dir_leaves_witness :
  exists w' store,
    change_templates_dir sample_default_dir "new" "n" sample_world
    = (inr NotTransferred, w') /\
    directories w' !! "home/tdmcli/templates"
    = Some (default ∅ (directories sample_world !! "home/tdmcli/templates")) /\
    get_templates_dir sample_default_dir w' = (inr "new", w') /\
    directories w' !! "new" = Some store /\
    store = default ∅ (directories sample_world !! "new") /\
    forall template_name fs,
      store !! template_name = None ->
      apply_template template_name store fs = (NotFound, fs).
Proof.
  apply (change_templates_dir_leaves sample_default_dir "new"
           "home/tdmcli/templates" "home" "n" sample_world);
    [reflexivity|reflexivity|discriminate|discriminate|discriminate].
Defined.

(** * The tree walker *)

Lemma node_induction (P : node -> Prop) :
  (forall contents, P (File contents)) ->
  (forall entries, Forall (fun entry => P entry.2) entries -> P (Directory entries)) ->
  forall n, P n.
Proof.
  intros Hfile Hdir. fix IH 1. intros [contents|entries]; [apply Hfile|].
  apply Hdir. induction entries as [|entry entries IHentries]; constructor; [apply IH|done].
Qed.

Lemma sep_split (sep : byte) (a b r r' : list byte) :
  sep ∉ a -> sep ∉ b -> a ++ sep :: r = b ++ sep :: r' -> a = b.
Proof.
  revert b. induction a as [|x a IH]; intros [|y b] Ha Hb Heq; cbn in *.
  - done.
  - injection Heq as <- _. by apply not_elem_of_cons in Hb as [? _].
  - injection Heq as -> _. by apply not_elem_of_cons in Ha as [? _].
  - injection Heq as -> Heq.
    apply not_elem_of_cons in Ha as [_ Ha]. apply not_elem_of_cons in Hb as [_ Hb].
    f_equal. by apply IH.
Qed.

Section walker_properties.

Variable sep : byte.

(** The paths of the files directly in a directory. *)
Lemma elem_of_files (prefix p : list byte) (entries : list (list byte * node)) :
  p ∈ relative_path <$>
        flat_map (fun entry : list byte * node =>
                    match entry.2 with
                    | File contents => [SourceFile (prefix ++ entry.1) contents]
                    | Directory _ => []
                    end) entries ->
  exists name, name ∈ entries.*1 /\ p = prefix ++ name.
Proof.
  induction entries as [|[name [contents|sub]] entries IH]; cbn.
  - by intros ?%elem_of_nil.
  - intros [->|Hin]%elem_of_cons.
    + exists name. split; [apply elem_of_cons; by left|done].
    + destruct (IH Hin) as (n & Hn & ->). exists n. split; [apply elem_of_cons; by right|done].
  - intros Hin. destruct (IH Hin) as (n & Hn & ->).
    exists n. split; [apply elem_of_cons; by right|done].
Qed.

Lemma NoDup_files (prefix : list byte) (entries : list (list byte * node)) :
  NoDup entries.*1 ->
  NoDup (relative_path <$>
           flat_map (fun entry : list byte * node =>
                       match entry.2 with
                       | File contents => [SourceFile (prefix ++ entry.1) contents]
                       | Directory _ => []
                       end) entries).
Proof.
  induction entries as [|[name [contents|sub]] entries IH]; cbn;
    [constructor|intros [Hname Hnodup]%NoDup_cons..].
  - apply NoDup_cons. split; [|by apply IH].
    intros (n & Hn & Heq%app_inv_head)%elem_of_files. by subst.
  - by apply IH.
Qed.

(** The paths of the files further down. *)
Lemma elem_of_dirs (prefix p : list byte) (entries : list (list byte * node)) :
  p ∈ relative_path <$>
        flat_map (fun entry : list byte * node =>
                    walk sep (prefix ++ entry.1 ++ [sep]) entry.2) entries ->
  exists entry, entry ∈ entries /\
    p ∈ relative_path <$> walk sep (prefix ++ entry.1 ++ [sep]) entry.2.
Proof.
  induction entries as [|entry entries IH]; cbn.
  - by intros ?%elem_of_nil.
  - rewrite fmap_app. intros [Hin|Hin]%elem_of_app.
    + exists entry. split; [apply elem_of_cons; by left|done].
    + destruct (IH Hin) as (e & He & Hp). exists e. split; [apply elem_of_cons; by right|done].
Qed.

(** Every path that the walker gives starts with the path of the directory
    walked, and the paths are distinct. *)
Lemma walk_paths (n : node) :
  forall prefix,
    tree_ok sep n = true ->
    NoDup (relative_path <$> walk sep prefix n) /\
    forall p, p ∈ relative_path <$> walk sep prefix n -> exists r, p = prefix ++ r.
Proof.
  induction n as [contents|entries IH] using node_induction; intros prefix Hok.
  { split; [constructor|]. by intros p ?%elem_of_nil. }
  cbn [tree_ok] in Hok.
  apply andb_true_iff in Hok as [Hnames%bool_decide_eq_true Hall].
  assert (Hsub : forall entry, entry ∈ entries ->
            (sep ∉ entry.1) /\
            NoDup (relative_path <$> walk sep (prefix ++ entry.1 ++ [sep]) entry.2) /\
            forall p, p ∈ relative_path <$> walk sep (prefix ++ entry.1 ++ [sep]) entry.2 ->
                      exists r, p = prefix ++ entry.1 ++ sep :: r).
  { intros entry Hin. rewrite Forall_forall in IH.
    pose proof (proj1 (forallb_forall _ _) Hall entry
                  (proj1 (list_elem_of_In _ _) Hin)) as Hentry.
    apply andb_true_iff in Hentry as [Hsep%bool_decide_eq_true Hchild].
    destruct (IH entry Hin (prefix ++ entry.1 ++ [sep]) Hchild) as [Hnodup Hpre].
    split_and!; [done|done|].
    intros p Hp. destruct (Hpre p Hp) as (r & ->). exists r. by rewrite <- !app_assoc. }
  cbn [walk]. rewrite fmap_app. split.
  - apply NoDup_app. split_and!.
    + by apply NoDup_files.
    + intros p (name & Hname & Hpeq)%elem_of_files (entry & Hentry & Hp)%elem_of_dirs.
      destruct (Hsub entry Hentry) as (Hsep & _ & Hpre).
      destruct (Hpre p Hp) as (r & Heq). rewrite Hpeq in Heq. apply app_inv_head in Heq.
      apply list_elem_of_fmap in Hname as ([name' child] & -> & Hin').
      destruct (Hsub _ Hin') as (Hsep' & _). cbn in *.
      apply Hsep'. rewrite Heq. apply elem_of_app. right. apply elem_of_cons. by left.
    + clear Hall IH. induction entries as [|entry entries IHentries]; cbn; [constructor|].
      apply NoDup_cons in Hnames as [Hname Hnames].
      rewrite fmap_app. apply NoDup_app. split_and!.
      * apply Hsub. apply elem_of_cons. by left.
      * intros p Hp (entry' & Hentry' & Hp')%elem_of_dirs.
        destruct (Hsub entry ltac:(apply elem_of_cons; by left)) as (Hsep & _ & Hpre).
        destruct (Hsub entry' ltac:(apply elem_of_cons; by right)) as (Hsep' & _ & Hpre').
        destruct (Hpre p Hp) as (r & ->).
        destruct (Hpre' _ Hp') as (r' & Heq%app_inv_head).
        apply sep_split in Heq; [|done..].
        apply Hname. rewrite Heq. apply list_elem_of_fmap. by exists entry'.
      * apply IHentries; [done|]. intros e He. apply Hsub. apply elem_of_cons. by right.
  - intros p [(name & _ & ->)%elem_of_files|(entry & Hentry & Hp)%elem_of_dirs]%elem_of_app.
    + by exists name.
    + destruct (Hsub entry Hentry) as (_ & _ & Hpre).
      destruct (Hpre p Hp) as (r & ->). by eexists.
Qed.

Lemma all_files_NoDup (root : node) (T : list (list byte * list byte)) :
  tree_ok sep root = true ->
  all_files sep root = map readable T ->
  NoDup T.*1.
Proof.
  intros Hok Hfiles. destruct (walk_paths root [] Hok) as [Hnodup _].
  unfold all_files in Hfiles. rewrite Hfiles in Hnodup.
  replace (relative_path <$> map readable T) with T.*1 in Hnodup; [done|].
  clear. induction T as [|e T IH]; [done|]. cbn. by rewrite <- IH.
Qed.

(** X22: the walker gives every file one path of its own.  In a tree in
    which the names within each directory are distinct and hold no
    separator, the relative paths that [create_template] collects are
    pairwise distinct. *)
Theorem walk_distinct_paths (root : node) :
  tree_ok sep root = true ->
  NoDup (relative_path <$> all_files sep root).
Proof. intros Hok. by destruct (walk_paths root [] Hok). Qed.

(** X23: the round trip of a directory tree.  For a tree with distinct,
    separator-free names in each directory, whose files can all be read,
    whose relative paths are plain and whose ciphertexts hold no line feed
    followed by [FILE: ], creating a template from the tree, the workers
    completing in any order, and applying it in an empty directory gives
    the files of the tree under their relative paths. *)
Theorem tree_roundtrip (root : node) (T completed : list (list byte * list byte))
    (template_name : string) (store : templates) :
  tree_ok sep root = true ->
  all_files sep root = map readable T ->
  Forall (fun entry => plain_path entry.1 = true) T ->
  Forall (fun entry => contains (ciphertext entry.2) hazard = false) T ->
  completed ≡ₚ T ->
  exists store',
    create_template template_name (map readable completed) None store = (Created, store') /\
    apply_template template_name store' ∅ = (Applied, list_to_map T).
Proof.
  intros Hok Hfiles Hplain Hfree Hperm.
  eexists. split; [apply create_template_readable|].
  apply apply_plain_archive; try done. by apply (all_files_NoDup root).
Qed.

End walker_properties.

Lemma walk_distinct_paths_witness :
  NoDup (relative_path <$> all_files x2f sample_root).
Proof. apply (walk_distinct_paths x2f sample_root). reflexivity. Defined.

Lemma tree_roundtrip_witness :
  exists store',
    create_template "t1" (map readable (rev sample_tree)) None ∅ = (Created, store') /\
    apply_template "t1" store' ∅ = (Applied, list_to_map sample_tree).
Proof.
  apply (tree_roundtrip x2f sample_root sample_tree (rev sample_tree) "t1" ∅).
  - reflexivity.
  - reflexivity.
  - apply forallb_true_Forall. by vm_compute.
  - apply existsb_false_Forall. by vm_compute.
  - symmetry. apply Permutation_rev.
Defined.
